(** * systemd-calendar-parser-node: the range sequencer and the field expanders

    A shallow embedding of [src/utils.ts] ([range]) and [src/index.ts]
    (the expanders over the parse tree), followed by the properties that
    the natural-language specification states about them. *)

From Stdlib Require Import ZArith List String Ascii Bool Lia DecimalString Sorted Permutation.
From Stdlib Require DecimalPos DecimalZ.
Import ListNotations.

Set Warnings "-register-all".

Local Open Scope Z_scope.
Local Open Scope list_scope.

(** ** ECMAScript numbers *)

(** The sequencer and the expanders only ever add and compare numbers that
    come from digit strings, array indexes and small constants.  A [number]
    is therefore a binary64 value that is [NaN], an infinity, or an integer.
    The sum of two integer-valued doubles is the double nearest to their
    exact integer sum (ties to even, overflow to an infinity); that rounding
    is written out in [of_Z].  Fractions are not represented, and [-0] is
    identified with [0] (the code never divides, so the two are
    indistinguishable here). *)
Module JsNumber.

Inductive number : Type :=
| NaN
| NegInf
| Fin (z : Z)
| PosInf.

Definition number_eq_dec (x y : number) : {x = y} + {x <> y}.
Proof. decide equality; apply Z.eq_dec. Defined.

(** Nearest multiple of [2^k] to [m >= 0], ties to the even multiple. *)
Definition round_half_even (m k : Z) : Z :=
  let q := Z.shiftr m k in
  let r := m - Z.shiftl q k in
  let half := Z.shiftl 1 (k - 1) in
  let q' := if r <? half then q
            else if half <? r then q + 1
            else if Z.even q then q else q + 1 in
  Z.shiftl q' k.

(** Rounding of a non-negative integer to 53 significant bits. *)
Definition round53 (m : Z) : Z :=
  let k := Z.log2 m - 52 in
  if k <=? 0 then m else round_half_even m k.

(** First magnitude that no longer rounds to a finite double. *)
Definition overflow_threshold : Z := 2 ^ 1024.

(** The double nearest to the integer [z]. *)
Definition of_Z (z : Z) : number :=
  let m := round53 (Z.abs z) in
  if overflow_threshold <=? m
  then (if z <? 0 then NegInf else PosInf)
  else Fin (Z.sgn z * m).

(** [x + y] *)
Definition add (x y : number) : number :=
  match x, y with
  | NaN, _ | _, NaN => NaN
  | PosInf, NegInf | NegInf, PosInf => NaN
  | PosInf, _ | _, PosInf => PosInf
  | NegInf, _ | _, NegInf => NegInf
  | Fin a, Fin b => of_Z (a + b)
  end.

(** [x < y]: false as soon as one side is [NaN]. *)
Definition lt (x y : number) : bool :=
  match x, y with
  | NaN, _ | _, NaN => false
  | _, NegInf => false
  | NegInf, _ => true
  | PosInf, _ => false
  | Fin _, PosInf => true
  | Fin a, Fin b => a <? b
  end.

(** [x > y] *)
Definition gt (x y : number) : bool := lt y x.

(** [x === y] on numbers: [NaN] differs from itself. *)
Definition strict_eq (x y : number) : bool :=
  match x, y with
  | NaN, _ | _, NaN => false
  | NegInf, NegInf | PosInf, PosInf => true
  | Fin a, Fin b => a =? b
  | _, _ => false
  end.

Definition isNaN (x : number) : bool :=
  match x with NaN => true | _ => false end.

(** [!x]: a number is falsy when it is zero or [NaN]. *)
Definition falsy (x : number) : bool :=
  match x with NaN => true | Fin 0 => true | _ => false end.

(** [Math.min(x, y)] *)
Definition min (x y : number) : number :=
  match x, y with
  | NaN, _ | _, NaN => NaN
  | _, _ => if lt y x then y else x
  end.

(** Integers that binary64 holds exactly together with all integers
    between them and zero. *)
Definition safe (z : Z) : Prop := Z.abs z <= 2 ^ 53.

(** Number::toString, for the sort below.  Plain decimal digits are what
    the engine prints for integers below [10^21] in magnitude. *)
Definition toString (x : number) : string :=
  match x with
  | NaN => "NaN"
  | NegInf => "-Infinity"
  | PosInf => "Infinity"
  | Fin z => NilZero.string_of_int (Z.to_int z)
  end.

End JsNumber.
Export JsNumber.

(** ** Strings *)

Module JsString.
Local Open Scope string_scope.

Definition is_upper (c : ascii) : bool :=
  let n := nat_of_ascii c in (Nat.leb 65 n && Nat.leb n 90)%bool.

(** [s.toLowerCase()] on ASCII text. *)
Fixpoint toLowerCase (s : string) : string :=
  match s with
  | EmptyString => EmptyString
  | String c s' =>
      String (if is_upper c then ascii_of_nat (nat_of_ascii c + 32) else c)
             (toLowerCase s')
  end.

Definition is_space (c : ascii) : bool :=
  let n := nat_of_ascii c in
  (Nat.eqb n 32 || (Nat.leb 9 n && Nat.leb n 13))%bool.

Fixpoint trimStart (s : string) : string :=
  match s with
  | String c s' => if is_space c then trimStart s' else s
  | EmptyString => EmptyString
  end.

Fixpoint trimEnd (s : string) : string :=
  match s with
  | EmptyString => EmptyString
  | String c s' =>
      match trimEnd s' with
      | EmptyString => if is_space c then EmptyString else String c EmptyString
      | t => String c t
      end
  end.

Definition is_digit (c : ascii) : bool :=
  let n := nat_of_ascii c in (Nat.leb 48 n && Nat.leb n 57)%bool.

(** Value of a string of decimal digits, most significant first. *)
Fixpoint digits_value (acc : Z) (s : string) : option Z :=
  match s with
  | EmptyString => Some acc
  | String c s' =>
      if is_digit c
      then digits_value (10 * acc + (Z.of_nat (nat_of_ascii c) - 48)) s'
      else None
  end.

(** An unsigned numeric literal: [Infinity] or a non-empty digit string. *)
Definition unsigned_literal (s : string) : number :=
  if String.eqb s "Infinity" then PosInf
  else match s with
       | EmptyString => NaN
       | _ => match digits_value 0 s with
              | Some v => of_Z v
              | None => NaN
              end
       end.

Definition negate (x : number) : number :=
  match x with
  | NaN => NaN
  | NegInf => PosInf
  | PosInf => NegInf
  | Fin z => Fin (- z)
  end.

(** [Number(s)] for a string: surrounding white space is dropped, the
    empty string is [0], an optionally signed digit string or [Infinity]
    is its value, and text that is no numeric literal is [NaN].  Literals
    with a fraction, an exponent or a radix prefix denote values outside
    the integer model and are not covered. *)
Definition StringToNumber (s : string) : number :=
  match trimEnd (trimStart s) with
  | EmptyString => Fin 0
  | String "+" s' => unsigned_literal s'
  | String "-" s' => negate (unsigned_literal s')
  | s' => unsigned_literal s'
  end.

(** [a.indexOf(x)]: position of the first element equal to [x], or -1. *)
Fixpoint indexOf_from (i : Z) (l : list string) (x : string) : Z :=
  match l with
  | [] => -1
  | y :: l' => if String.eqb y x then i else indexOf_from (i + 1) l' x
  end.

Definition indexOf (l : list string) (x : string) : Z := indexOf_from 0 l x.

End JsString.
Export JsString.

(** ** Sets and the default sort *)

Module JsArray.

Section Dedup.
Context {A : Type} (eq_dec : forall x y : A, {x = y} + {x <> y}).

(** [s.add(x)]: a [Set] keeps insertion order and ignores a value it
    already holds. *)
Definition Set_add (s : list A) (x : A) : list A :=
  if in_dec eq_dec x s then s else s ++ [x].

(** [new Set(values)], listed in iteration order. *)
Definition Set_of (values : list A) : list A :=
  fold_left Set_add values [].
End Dedup.

Definition number_Set_add := Set_add number_eq_dec.
Definition number_Set_of := Set_of number_eq_dec.
Definition string_Set_of := Set_of string_dec.

(** The comparison [Array.prototype.sort] applies when it is called without
    a comparator: the elements are converted to strings and compared by
    code units. *)
Definition default_le (x y : number) : bool :=
  String.leb (toString x) (toString y).

Fixpoint insert_sorted (x : number) (l : list number) : list number :=
  match l with
  | [] => [x]
  | y :: l' => if default_le x y then x :: l else y :: insert_sorted x l'
  end.

(** [a.sort()].  The sort is stable, so its result is determined by the
    comparison alone; insertion from the right is one stable sort. *)
Definition sort (l : list number) : list number :=
  fold_right insert_sorted [] l.

End JsArray.
Export JsArray.

(** ** Values, errors and completions *)

(** The values that reach [Number(...)] in the sources. *)
Inductive value : Type :=
| undefined
| num (n : number)
| str (s : string).

(** [Number(v)] *)
Definition Number (v : value) : number :=
  match v with
  | undefined => NaN
  | num n => n
  | str s => StringToNumber s
  end.

(** The exceptions the sources throw, with the data their messages are
    built from. *)
Inductive JsError : Type :=
| UnexpectedTokenTypeError (expectedType receivedType : string)
| UnexpectedChildrenError (expected : string) (got : nat)
| Error (message : string)
| TypeError (message : string)
| RangeError (message : string).

Definition message (e : JsError) : string :=
  match e with
  | UnexpectedTokenTypeError expected received =>
      "Expected token type " ++ expected ++ " but got " ++ received
  | UnexpectedChildrenError expected got =>
      "Expected " ++ expected ++ " children in [object Object], got "
        ++ NilZero.string_of_int (Z.to_int (Z.of_nat got))
  | Error m | TypeError m | RangeError m => m
  end%string.

(** How a call ends: with a value, with an exception, or not within the
    number of generator steps the caller is prepared to wait for. *)
Inductive Completion (A : Type) : Type :=
| Returns (a : A)
| Throws (e : JsError)
| Unfinished.
Arguments Returns {A} a.
Arguments Throws {A} e.
Arguments Unfinished {A}.

(** Computations that drain generators: the argument bounds the number of
    [next()] calls spent on any one generator. *)
Definition Exec (A : Type) : Type := nat -> Completion A.

Definition ret {A} (a : A) : Exec A := fun _ => Returns a.
Definition throw {A} (e : JsError) : Exec A := fun _ => Throws e.
Definition bind {A B} (m : Exec A) (k : A -> Exec B) : Exec B :=
  fun fuel =>
    match m fuel with
    | Returns a => k a fuel
    | Throws e => Throws e
    | Unfinished => Unfinished
    end.

Declare Scope exec_scope.
Delimit Scope exec_scope with exec.
Notation "x <- m ;; k" := (bind m (fun x => k))
  (at level 61, m at next level, right associativity) : exec_scope.
Notation "m ;; k" := (bind m (fun _ => k))
  (at level 61, right associativity) : exec_scope.
Local Open Scope exec_scope.

(** [for (const x of xs) { acc = body(acc, x) }] with a body that may throw. *)
Fixpoint for_of {A S} (xs : list A) (body : S -> A -> Exec S) (acc : S) : Exec S :=
  match xs with
  | [] => ret acc
  | x :: xs' => acc' <- body acc x ;; for_of xs' body acc'
  end.

(** ** The range sequencer ([src/utils.ts], [function* range]) *)

Module Range.

(** A generator object of [range].  Calling [range] runs none of its body;
    each [next()] runs it up to the following [yield] or to its end. *)
Inductive Generator : Type :=
| Suspended (args : list value)           (* created, body not entered *)
| InAscending (start stop step : number)  (* parked at the first yield *)
| InDescending (start stop step : number) (* parked at the second yield *)
| Completed.

Inductive IteratorResult : Type :=
| Yield (v : number)
| Done
| Raise (e : JsError).

(** [while (start > stop) { yield start; start += _step; }] at its test. *)
Definition descending_test (start stop step : number)
  : IteratorResult * Generator :=
  if gt start stop then (Yield start, InDescending start stop step)
  else (Done, Completed).

(** [if (start > stop) { if (_step > 0) return; while ... }] *)
Definition second_block (start stop step : number)
  : IteratorResult * Generator :=
  if gt start stop
  then (if gt step (Fin 0) then (Done, Completed)
        else descending_test start stop step)
  else (Done, Completed).

(** [while (start < stop) { yield start; start += _step; }] at its test;
    leaving the loop falls through to the second block. *)
Definition ascending_test (start stop step : number)
  : IteratorResult * Generator :=
  if lt start stop then (Yield start, InAscending start stop step)
  else second_block start stop step.

(** [if (start < stop) { if (_step < 0) return; while ... }] *)
Definition first_block (start stop step : number)
  : IteratorResult * Generator :=
  if lt start stop
  then (if lt step (Fin 0) then (Done, Completed)
        else ascending_test start stop step)
  else second_block start stop step.

(** The two guards in front of the loops. *)
Definition guarded (start stop step : number)
  : IteratorResult * Generator :=
  if (isNaN start || isNaN stop || isNaN step)%bool then (Done, Completed)
  else if (strict_eq start stop || falsy step)%bool then (Done, Completed)
  else first_block start stop step.

(** [switch (arguments.length)]: the triple [(start, stop, _step)]. *)
Definition arguments (args : list value)
  : option (number * number * number) :=
  match args with
  | [a] => Some (Fin 0, Number a, Fin 1)
  | [a; b] =>
      let start := Number a in
      let stop := Number b in
      Some (start, stop, if lt start stop then Fin 1 else Fin (-1))
  | [a; b; step] => Some (Number a, Number b, Number step)
  | _ => None
  end.

(** One [next()] call. *)
Definition next (g : Generator) : IteratorResult * Generator :=
  match g with
  | Suspended args =>
      match arguments args with
      | Some (start, stop, step) => guarded start stop step
      | None => (Raise (Error "Invalid arguments to range"), Completed)
      end
  | InAscending start stop step => ascending_test (add start step) stop step
  | InDescending start stop step => descending_test (add start step) stop step
  | Completed => (Done, Completed)
  end.

Definition range (args : list value) : Generator := Suspended args.

(** The values of the first [n] [next()] calls that yield. *)
Fixpoint take (n : nat) (g : Generator) : list number :=
  match n with
  | O => []
  | S n' =>
      match next g with
      | (Yield v, g') => v :: take n' g'
      | _ => []
      end
  end.

(** [[...g]]: drain the generator, spending at most [fuel] [next()] calls. *)
Fixpoint spread (g : Generator) (fuel : nat) : Completion (list number) :=
  match fuel with
  | O => Unfinished
  | S fuel' =>
      match next g with
      | (Yield v, g') =>
          match spread g' fuel' with
          | Returns l => Returns (v :: l)
          | other => other
          end
      | (Done, _) => Returns []
      | (Raise e, _) => Throws e
      end
  end.

End Range.
Export Range.

(** ** Parse trees of the grammar engine *)

Module Ebnf.

(** What the parser builds: a rule name, the matched text, the children. *)
Inductive Tree : Type :=
| Node (type text : string) (children : list Tree).

(** An [IToken] is a node together with its chain of [parent] links,
    nearest first; the root has none. *)
Record IToken : Type := mkToken { subtree : Tree; ancestors : list Tree }.

Definition type (t : IToken) : string :=
  match subtree t with Node ty _ _ => ty end.

Definition text (t : IToken) : string :=
  match subtree t with Node _ tx _ => tx end.

Definition children (t : IToken) : list IToken :=
  match subtree t with
  | Node _ _ cs =>
      map (fun c => mkToken c (subtree t :: ancestors t)) cs
  end.

(** [t.parent], [None] where the link is null. *)
Definition parent (t : IToken) : option IToken :=
  match ancestors t with
  | [] => None
  | p :: above => Some (mkToken p above)
  end.

(** The token the parser returns for a whole input. *)
Definition root (tr : Tree) : IToken := mkToken tr [].

(** [findChildrenByType] of the engine's SemanticHelpers: the direct
    children of the given type. *)
Definition findChildrenByType (token : IToken) (ty : string) : list IToken :=
  filter (fun x => String.eqb (type x) ty) (children token).

End Ebnf.
Export Ebnf.

(** ** The expanders ([src/index.ts]) *)

(** [m.get(key)], [None] standing for [undefined]. *)
Definition Map_get {V} (m : list (string * V)) (key : string) : option V :=
  option_map snd (find (fun kv => String.eqb (fst kv) key) m).

(** The table of [src/index.ts], lines 10-20; a [Map] is read through [get]
    only, for which an association list serves. *)
Definition SPECIAL_EXPRESSION_EXPANSION_MAP : list (string * string) :=
  [ ("minutely", "*-*-* *:*:00");
    ("hourly", "*-*-* *:00:00");
    ("daily", "*-*-* 00:00:00");
    ("weekly", "Mon *-*-* 00:00:00");
    ("monthly", "*-*-1 00:00:00");
    ("quarterly", "*-1,4,7,10-1 00:00:00");
    ("semiannually", "*-1,7-1 00:00:00");
    ("yearly", "*-1-1 00:00:00");
    ("annually", "*-1-1 00:00:00") ]%string.

(** Monday comes first (line 23). *)
Definition SHORT_DAY_NAMES : list string :=
  ["mon"; "tue"; "wed"; "thu"; "fri"; "sat"; "sun"]%string.

(** A length, as a template literal prints it. *)
Definition nat_to_string (n : nat) : string :=
  NilZero.string_of_int (Z.to_int (Z.of_nat n)).

(** Lines 52-56. *)
Definition assertTokenType (tokens : IToken) (expectedType : string) : Exec unit :=
  if String.eqb (type tokens) expectedType then ret tt
  else throw (UnexpectedTokenTypeError expectedType (type tokens)).

(** Lines 61-65. *)
Definition assertChildrenLengthEQ (tokens : IToken) (expected : nat) : Exec unit :=
  if Nat.eqb (List.length (children tokens)) expected then ret tt
  else throw (UnexpectedChildrenError (nat_to_string expected)
                (List.length (children tokens))).

(** Lines 70-74. *)
Definition assertChildrenLengthGEQ (tokens : IToken) (minimum : nat) : Exec unit :=
  if Nat.ltb (List.length (children tokens)) minimum
  then throw (UnexpectedChildrenError ("at least " ++ nat_to_string minimum)%string
                (List.length (children tokens)))
  else ret tt.

(** Lines 79-83. *)
Definition assertChildrenLengthLEQ (tokens : IToken) (maximum : nat) : Exec unit :=
  if Nat.ltb maximum (List.length (children tokens))
  then throw (UnexpectedChildrenError ("at most " ++ nat_to_string maximum)%string
                (List.length (children tokens)))
  else ret tt.

(** [a[i]!] followed by a property read: reading a property of [undefined]
    throws a [TypeError]. *)
Definition item (a : list IToken) (i : nat) : Exec IToken :=
  match nth_error a i with
  | Some t => ret t
  | None => throw (TypeError "undefined is not an object")
  end.

(** Lines 91-100.  The recursion of [extractTextForType] reads [type],
    [text] and [children] only, so it runs on the node: the text of the node
    itself first, if its type matches, then the texts found in its children
    from left to right. *)
Fixpoint extractText (ty : string) (t : Tree) : list string :=
  match t with
  | Node ty' tx cs =>
      (if String.eqb ty' ty then [tx] else [])
        ++ flat_map (extractText ty) cs
  end.

Definition extractTextForType (tokens : IToken) (ty : string) : list string :=
  extractText ty (subtree tokens).

(** Lines 108-114.  The result is [undefined] ([None]) for a text that is no
    key of the table. *)
Definition expandSpecialExpression (tokens : IToken) : Exec (option string) :=
  assertTokenType tokens "SpecialExpressions" ;;
  assertChildrenLengthLEQ tokens 0 ;;
  ret (Map_get SPECIAL_EXPRESSION_EXPANSION_MAP (text tokens)).

(** Lines 121-129. *)
Definition parseDayOfTheWeek (tokens : IToken) : Exec (list number) :=
  assertTokenType tokens "DayOfTheWeek" ;;
  let days := extractTextForType tokens "DayOfTheWeek" in
  let uniqueDays :=
    string_Set_of (map (fun day => substring 0 3 (toLowerCase day)) days) in
  ret (map (fun day => Fin (indexOf SHORT_DAY_NAMES day)) uniqueDays).

(** [a[0]!] as a value: [undefined] on an empty array. *)
Definition first_value (a : list number) : value :=
  match a with
  | [] => undefined
  | x :: _ => num x
  end.

(** Lines 137-146.  Where an operand is [undefined], [<] and [+] convert it
    with [Number] first. *)
Definition parseRangedWeekDaySpec (tokens : IToken) : Exec (list number) :=
  assertTokenType tokens "RangedWeekDaySpec" ;;
  assertChildrenLengthEQ tokens 2 ;;
  child0 <- item (children tokens) 0 ;;
  days0 <- parseDayOfTheWeek child0 ;;
  let firstDay := first_value days0 in
  child1 <- item (children tokens) 1 ;;
  days1 <- parseDayOfTheWeek child1 ;;
  let secondDay := first_value days1 in
  if lt (Number secondDay) (Number firstDay)
  then throw (Error "Systemd starts weeks on Monday")
  else spread (range [firstDay; num (add (Number secondDay) (Fin 1))]).

(** Lines 154-175. *)
Definition parseWeekDaySpecEntry (tokens : IToken) : Exec (list number) :=
  assertTokenType tokens "WeekDaySpecEntry" ;;
  assertChildrenLengthGEQ tokens 1 ;;
  for_of (children tokens)
    (fun days token =>
       if String.eqb (type token) "RangedWeekDaySpec" then
         more <- parseRangedWeekDaySpec token ;; ret (days ++ more)
       else if String.eqb (type token) "DayOfTheWeek" then
         more <- parseDayOfTheWeek token ;; ret (days ++ more)
       else throw (UnexpectedTokenTypeError "RangedWeekDaySpec|DayOfTheWeek"
                     (type token)))
    [].

(** Lines 183-195. *)
Definition expandWeekDaySpec (tokens : IToken) : Exec (list number) :=
  assertTokenType tokens "WeekDaySpec" ;;
  assertChildrenLengthGEQ tokens 0 ;;
  days <- for_of (children tokens)
            (fun days token =>
               entry <- parseWeekDaySpecEntry token ;;
               ret (fold_left number_Set_add entry days))
            [] ;;
  ret (sort days).

(** Lines 198-204. *)
Definition tokenTypeToMaximumValue : list (string * number) :=
  [ ("Month", Fin 12);
    ("Day", Fin 31);
    ("Hour", Fin 24);
    ("Minute", Fin 60);
    ("Second", Fin 61) ]%string.

(** [token.parent.parent.type] *)
Definition grandparentType (token : IToken) : Exec string :=
  match parent token with
  | None => throw (TypeError "null is not an object")
  | Some p =>
      match parent p with
      | None => throw (TypeError "null is not an object")
      | Some g => ret (type g)
      end
  end.

(** The body of [case 'RangedTimeUnit'] (lines 227-252). *)
Definition expandRangedTimeUnit (child : IToken) (maxEndValue : number)
  : Exec (list number) :=
  assertChildrenLengthEQ child 2 ;;
  startToken <- item (children child) 0 ;;
  let start := Number (str (text startToken)) in
  endToken <- item (children child) 1 ;;
  end_step <-
    (if String.eqb (type endToken) "RepeatedTimeUnit" then
       e <- item (children endToken) 0 ;;
       s <- item (children endToken) 1 ;;
       ret (Number (str (text e)), Number (str (text s)))
     else if String.eqb (type endToken) "TimeUnitNoWildcard" then
       ret (Number (str (text endToken)), Fin 1)
     else throw (RangeError "Invalid end value for RangedTimeUnit")) ;;
  let end_ := min (fst end_step) maxEndValue in
  spread (range [num start; num end_; num (snd end_step)]).

(** The body of [case 'RepeatedTimeUnit'] (lines 254-258). *)
Definition expandRepeatedTimeUnit (child : IToken) (maxEndValue : number)
  : Exec (list number) :=
  startToken <- item (children child) 0 ;;
  let start := Number (str (text startToken)) in
  stepToken <- item (children child) 1 ;;
  let step := Number (str (text stepToken)) in
  spread (range [num start; num maxEndValue; num step]).

(** The body of [case 'TimeUnit'] (lines 260-271): a wildcard falls through
    to the [default] branch. *)
Definition expandTimeUnit (child : IToken) : Exec (list number) :=
  grandchildToken <- item (children child) 0 ;;
  if String.eqb (type grandchildToken) "TimeUnitNoWildcard"
  then ret [Number (str (text grandchildToken))]
  else throw (Error "TODO").

(** Lines 211-279.  A field type without a maximum gives [-Infinity] and the
    [TypeError]. *)
Definition expandTimeUnitSpecEntry (token : IToken) : Exec (list number) :=
  assertTokenType token "TimeUnitSpecEntry" ;;
  parentType <- grandparentType token ;;
  match Map_get tokenTypeToMaximumValue parentType with
  | None =>
      throw (TypeError ("Unknown " ++ parentType ++ " not in [object Map]")%string)
  | Some maxEndValue =>
      for_of (children token)
        (fun values child =>
           more <-
             (if String.eqb (type child) "RangedTimeUnit" then
                expandRangedTimeUnit child maxEndValue
              else if String.eqb (type child) "RepeatedTimeUnit" then
                expandRepeatedTimeUnit child maxEndValue
              else if String.eqb (type child) "TimeUnit" then
                expandTimeUnit child
              else throw (TypeError "Not a TimeUnitSpecEntry")) ;;
           ret (values ++ more))
        []
  end.

(** Lines 286-298. *)
Definition expandTimeUnitSpec (tokens : list IToken) : Exec (list number) :=
  values <- for_of tokens
              (fun values token =>
                 assertTokenType token "TimeUnitSpec" ;;
                 assertChildrenLengthGEQ token 1 ;;
                 for_of (children token)
                   (fun values timeUnitSpecEntryToken =>
                      more <- expandTimeUnitSpecEntry timeUnitSpecEntryToken ;;
                      ret (values ++ more))
                   values)
              [] ;;
  ret (sort (number_Set_of values)).

(** Lines 300-304. *)
Record DateIterator : Type := mkDateIterator {
  years : Generator;
  months : list number;
  dates : list number;
}.

(** The local generator function of [expandDateSpec], which only delegates
    ([yield*]) to [range] with its three parameters. *)
Definition years_generator (start stop step : value) : Generator :=
  range [start; stop; step].

(** Lines 312-331.  [console.dir] writes to the console only and is left
    out.  [expandYear] (line 306) has an empty body and is never called. *)
Definition expandDateSpec (tokens : IToken) : Exec DateIterator :=
  assertTokenType tokens "DateSpec" ;;
  assertChildrenLengthGEQ tokens 1 ;;
  year <- item (findChildrenByType tokens "Year") 0 ;;
  let yearTokens := children year in
  month <- item (findChildrenByType tokens "Month") 0 ;;
  let monthTokens := children month in
  day <- item (findChildrenByType tokens "Day") 0 ;;
  let dateTokens := children day in
  let ys := years_generator undefined undefined undefined in
  ms <- expandTimeUnitSpec monthTokens ;;
  ds <- expandTimeUnitSpec dateTokens ;;
  ret (mkDateIterator ys ms ds).

(** A [Date] is its time value: milliseconds since the epoch. *)
Definition Date : Type := Z.

(** Lines 337-345.  [new Date()] reads the system clock; [clock] is that
    reading at the [return] statement.  [console.error] writes to the
    console only. *)
Definition getNext (clock : Date) (tokens : IToken) (referenceDate : Date)
  : Exec Date :=
  assertTokenType tokens "FullCalendarSpec" ;;
  ret clock.

(** ** Parse trees used below *)

(** The grammar rules ([src/Grammars/systemd_calendar], generated from the
    EBNF file) are not among the sources, so the parse trees of the texts
    used below are built by hand, in the shape the expanders read: a
    [FullCalendarSpec] root whose first child is the weekday spec, the date
    spec or the special expression; weekday entries holding a [DayOfTheWeek]
    or a [RangedWeekDaySpec] of two of them; [Year], [Month] and [Day]
    holding a [TimeUnitSpec] of [TimeUnitSpecEntry] nodes.  Every node
    carries the text it matched. *)
Module Ast.
Local Open Scope string_scope.

(** Modelled from the spec: the root node of a parse (grammar rules missing). *)
Definition calendar (tx : string) (cs : list Tree) : Tree :=
  Node "FullCalendarSpec" tx cs.

(** Modelled from the spec: the node of a day name (grammar rules missing). *)
Definition day (name : string) : Tree := Node "DayOfTheWeek" name [].

(** Modelled from the spec: a weekday entry that is one day (grammar rules
    missing). *)
Definition dayEntry (name : string) : Tree :=
  Node "WeekDaySpecEntry" name [day name].

(** Modelled from the spec: a weekday entry that is a range [a..b] (grammar
    rules missing). *)
Definition dayRangeEntry (a b : string) : Tree :=
  Node "WeekDaySpecEntry" (a ++ ".." ++ b)
    [Node "RangedWeekDaySpec" (a ++ ".." ++ b) [day a; day b]].

(** Modelled from the spec: the node of an explicit value (grammar rules
    missing). *)
Definition literal (tx : string) : Tree := Node "TimeUnitNoWildcard" tx [].

(** Modelled from the spec: a time-unit entry that is a single value [v]
    (grammar rules missing). *)
Definition unit (v : string) : Tree :=
  Node "TimeUnitSpecEntry" v [Node "TimeUnit" v [literal v]].

(** Modelled from the spec: a time-unit entry that is the wildcard (grammar
    rules missing). *)
Definition wildcard : Tree :=
  Node "TimeUnitSpecEntry" "*" [Node "TimeUnit" "*" [Node "WILDCARD" "*" []]].

(** Modelled from the spec: a time-unit entry of the ranged form [a..b]
    (grammar rules missing). *)
Definition ranged (a b : string) : Tree :=
  Node "TimeUnitSpecEntry" (a ++ ".." ++ b)
    [Node "RangedTimeUnit" (a ++ ".." ++ b) [literal a; literal b]].

(** Modelled from the spec: a time-unit entry of the stepped form [a..b/c]
    (grammar rules missing). *)
Definition rangedStep (a b c : string) : Tree :=
  Node "TimeUnitSpecEntry" (a ++ ".." ++ b ++ "/" ++ c)
    [Node "RangedTimeUnit" (a ++ ".." ++ b ++ "/" ++ c)
       [literal a;
        Node "RepeatedTimeUnit" (b ++ "/" ++ c) [literal b; literal c]]].

(** Modelled from the spec: a [Year], [Month] or [Day] field with its
    comma-separated entries (grammar rules missing). *)
Definition field (ty tx : string) (entries : list Tree) : Tree :=
  Node ty tx [Node "TimeUnitSpec" tx entries].

(** Modelled from the spec: a date spec of three fields (grammar rules
    missing). *)
Definition dateSpec (tx : string) (year month dayOfMonth : Tree) : Tree :=
  Node "DateSpec" tx [year; month; dayOfMonth].

(** [getAST(text).children[0]!], as the tests take it. *)
Definition firstChild (ast : Tree) : IToken :=
  nth 0 (children (root ast)) (root ast).

(** Modelled from the spec: the parse of ["Sat,Thu,Mon..Wed,Sat..Sun"]
    (grammar rules missing). *)
Definition weekdays : Tree :=
  calendar "Sat,Thu,Mon..Wed,Sat..Sun"
    [Node "WeekDaySpec" "Sat,Thu,Mon..Wed,Sat..Sun"
       [dayEntry "Sat"; dayEntry "Thu";
        dayRangeEntry "Mon" "Wed"; dayRangeEntry "Sat" "Sun"]].


(** Modelled from the spec: the parse of ["hourly America/Chicago"] (grammar
    rules missing). *)
Definition hourly : Tree :=
  calendar "hourly America/Chicago"
    [Node "SpecialExpressions" "hourly" [];
     Node "Timezone" "America/Chicago" []].

(** Modelled from the spec: the parse of ["*-*-*"] (grammar rules missing). *)
Definition any_date : Tree :=
  calendar "*-*-*"
    [dateSpec "*-*-*" (field "Year" "*" [wildcard])
       (field "Month" "*" [wildcard]) (field "Day" "*" [wildcard])].

(** Modelled from the spec: the parse of ["2025-12-25"] (grammar rules
    missing). *)
Definition christmas : Tree :=
  calendar "2025-12-25"
    [dateSpec "2025-12-25" (field "Year" "2025" [unit "2025"])
       (field "Month" "12" [unit "12"]) (field "Day" "25" [unit "25"])].

(** Modelled from the spec: the parse of ["2003-02..04-05"] (grammar rules
    missing). *)
Definition feb_to_apr : Tree :=
  calendar "2003-02..04-05"
    [dateSpec "2003-02..04-05" (field "Year" "2003" [unit "2003"])
       (field "Month" "02..04" [ranged "02" "04"]) (field "Day" "05" [unit "05"])].

(** Modelled from the spec: the parse of ["2003-1..7/3-05"] (grammar rules
    missing). *)
Definition every_third_month : Tree :=
  calendar "2003-1..7/3-05"
    [dateSpec "2003-1..7/3-05" (field "Year" "2003" [unit "2003"])
       (field "Month" "1..7/3" [rangedStep "1" "7" "3"])
       (field "Day" "05" [unit "05"])].

(** Modelled from the spec: the parse of ["2003-10..20-05"] (grammar rules
    missing). *)
Definition oct_onwards : Tree :=
  calendar "2003-10..20-05"
    [dateSpec "2003-10..20-05" (field "Year" "2003" [unit "2003"])
       (field "Month" "10..20" [ranged "10" "20"])
       (field "Day" "05" [unit "05"])].

(** Modelled from the spec: the parse of ["2003-2,10-05"] (grammar rules
    missing). *)
Definition feb_and_oct : Tree :=
  calendar "2003-2,10-05"
    [dateSpec "2003-2,10-05" (field "Year" "2003" [unit "2003"])
       (field "Month" "2,10" [unit "2"; unit "10"]) (field "Day" "05" [unit "05"])].

(** Modelled from the spec: a time-unit entry of the stepped open form
    [a/c] (grammar rules missing). *)
Definition repeated (a c : string) : Tree :=
  Node "TimeUnitSpecEntry" (a ++ "/" ++ c)
    [Node "RepeatedTimeUnit" (a ++ "/" ++ c) [literal a; literal c]].

(** The entries of a weekday spec: a day, or a range of days. *)
Inductive WeekdayEntry : Type :=
| OneDay (name : string)
| DayRange (first last : string).

(** Modelled from the spec: the node of a weekday entry (grammar rules
    missing). *)
Definition weekdayEntry (e : WeekdayEntry) : Tree :=
  match e with
  | OneDay name => dayEntry name
  | DayRange a b => dayRangeEntry a b
  end.

(** Modelled from the spec: a weekday spec with its comma-separated entries
    (grammar rules missing). *)
Definition weekdaySpec (tx : string) (entries : list WeekdayEntry) : Tree :=
  Node "WeekDaySpec" tx (map weekdayEntry entries).

End Ast.

(** ** Vocabulary of the statements *)

(** Each element is below the next one. *)
Definition ascending (l : list number) : Prop :=
  Sorted (fun x y => lt x y = true) l.




(** The names the grammar accepts for a day, in lower case. *)
Definition DAY_NAMES : list string :=
  ["mon"; "monday"; "tue"; "tuesday"; "wed"; "wednesday"; "thu"; "thursday";
   "fri"; "friday"; "sat"; "saturday"; "sun"; "sunday"]%string.

(** A day name in full or three-letter form, in any case. *)
Definition is_day_name (s : string) : Prop := In (toLowerCase s) DAY_NAMES.

(** Every [DayOfTheWeek] node below the token holds a day name. *)
Definition days_well_formed (tokens : IToken) : Prop :=
  Forall is_day_name (extractTextForType tokens "DayOfTheWeek").

(** Index of a day name, Monday being 0. *)
Definition day_index (name : string) : Z :=
  indexOf SHORT_DAY_NAMES (substring 0 3 (toLowerCase name)).

(** The integers from [a] up to [b], both included. *)
Definition interval (a b : Z) : list number :=
  map (fun i => Fin (a + Z.of_nat i)) (seq 0 (Z.to_nat (b - a + 1))).


(** 2025-12-25T16:00:00-05:00 and 2025-12-25T17:00:00-05:00 as time values. *)
Definition reference_instant : Date := 1766696400000.
Definition next_hour_instant : Date := 1766700000000.

(** A computation that finished keeps its result when given more fuel. *)
Definition monotone {A} (m : Exec A) : Prop :=
  forall fuel fuel', (fuel <= fuel')%nat -> m fuel <> Unfinished ->
                     m fuel' = m fuel.

(** An index of [SHORT_DAY_NAMES]. *)
Definition weekday_index (v : number) : Prop :=
  exists z, v = Fin z /\ 0 <= z <= 6.

(** The generator [expandDateSpec] stores as [years]: its local generator
    function called without arguments. *)
Definition no_years : Generator := years_generator undefined undefined undefined.

(** [n] values from [a] in steps of [c]. *)
Definition progression (a c : Z) (n : nat) : list number :=
  map (fun k => Fin (a + Z.of_nat k * c)) (seq 0 n).

(** How many steps of [c > 0] from [a] stay below [b]. *)
Definition steps_up (a b c : Z) : nat := Z.to_nat ((b - a + c - 1) / c).

(** How many steps of [c < 0] from [a] stay above [b]. *)
Definition steps_down (a b c : Z) : nat := Z.to_nat ((a - b - c - 1) / - c).

(** The days a weekday entry names, as indexes. *)
Definition covers (e : Ast.WeekdayEntry) (i : Z) : Prop :=
  match e with
  | Ast.OneDay name => i = day_index name
  | Ast.DayRange a b => day_index a <= i <= day_index b
  end.

(** The names of a weekday entry are day names. *)
Definition entry_well_formed (e : Ast.WeekdayEntry) : Prop :=
  match e with
  | Ast.OneDay name => is_day_name name
  | Ast.DayRange a b => is_day_name a /\ is_day_name b
  end.

(** The entry is a range whose last day comes before its first. *)
Definition wraps (e : Ast.WeekdayEntry) : Prop :=
  match e with
  | Ast.OneDay _ => False
  | Ast.DayRange a b => day_index b < day_index a
  end.

(** A generator that was given one, two or three arguments, or is past its
    [switch]. *)
Definition well_argued (g : Generator) : Prop :=
  match g with
  | Suspended args => (1 <= List.length args <= 3)%nat
  | _ => True
  end.

(** The indexes a weekday entry stands for. *)
Definition entry_days (e : Ast.WeekdayEntry) : list number :=
  match e with
  | Ast.OneDay name => [Fin (day_index name)]
  | Ast.DayRange a b => interval (day_index a) (day_index b)
  end.

(** The nodes of a tree in document order: a node before its children, the
    children from left to right. *)
Fixpoint preorder (t : Tree) : list Tree :=
  match t with
  | Node _ _ cs => t :: flat_map preorder cs
  end.

Definition node_type (t : Tree) : string :=
  match t with Node ty _ _ => ty end.

Definition node_text (t : Tree) : string :=
  match t with Node _ tx _ => tx end.

(** ** Facts about numbers *)

Section NumberFacts.

Lemma overflow_threshold_large : 2 ^ 54 < overflow_threshold.
Proof. unfold overflow_threshold. apply Z.pow_lt_mono_r; lia. Qed.

Lemma round53_small (m : Z) : 0 <= m < 2 ^ 53 -> round53 m = m.
Proof.
  intros [H0 H1]. unfold round53.
  destruct (Z.eq_dec m 0) as [->|Hne]; [reflexivity|].
  assert (Z.log2 m < 53) by (apply Z.log2_lt_pow2; lia).
  destruct (Z.leb_spec (Z.log2 m - 52) 0); [reflexivity|lia].
Qed.

Lemma round53_pow53 : round53 (2 ^ 53) = 2 ^ 53.
Proof. reflexivity. Qed.

Lemma round53_exact (m : Z) : 0 <= m <= 2 ^ 53 -> round53 m = m.
Proof.
  intros [H0 H1]. destruct (Z.eq_dec m (2 ^ 53)) as [->|Hne].
  - apply round53_pow53.
  - apply round53_small; lia.
Qed.

Lemma round53_large (m : Z) : 2 ^ 53 < m -> 2 ^ 53 <= round53 m.
Proof.
  intros Hm. unfold round53.
  assert (Hlog : 53 <= Z.log2 m) by (apply Z.log2_le_pow2; lia).
  destruct (Z.leb_spec (Z.log2 m - 52) 0) as [Hk|Hk]; [lia|].
  set (k := Z.log2 m - 52) in *.
  unfold round_half_even.
  assert (Hq : 2 ^ 52 <= Z.shiftr m k).
  { rewrite Z.shiftr_div_pow2 by lia.
    apply Z.div_le_lower_bound; [apply Z.pow_pos_nonneg; lia|].
    rewrite <- Z.pow_add_r by lia.
    replace (k + 52) with (Z.log2 m) by (unfold k; lia).
    apply Z.log2_spec; lia. }
  assert (Hk2 : 2 <= 2 ^ k).
  { change 2 with (2 ^ 1) at 1. apply Z.pow_le_mono_r; lia. }
  assert (Hshift : forall q, 2 ^ 52 <= q -> 2 ^ 53 <= Z.shiftl q k).
  { intros q Hq'. rewrite Z.shiftl_mul_pow2 by lia.
    change (2 ^ 53) with (2 ^ 52 * 2). nia. }
  repeat match goal with |- context [if ?b then _ else _] => destruct b end;
    apply Hshift; lia.
Qed.

Lemma of_Z_safe (z : Z) : safe z -> of_Z z = Fin z.
Proof.
  unfold safe, of_Z. intros Hz.
  rewrite round53_exact by lia.
  pose proof overflow_threshold_large as Hov.
  assert (2 ^ 53 < 2 ^ 54) by (apply Z.pow_lt_mono_r; lia).
  destruct (Z.leb_spec overflow_threshold (Z.abs z)); [lia|].
  f_equal. lia.
Qed.

Lemma of_Z_above (z : Z) :
  2 ^ 53 < z -> of_Z z = PosInf \/ exists z', of_Z z = Fin z' /\ 2 ^ 53 <= z'.
Proof.
  intros Hz. unfold of_Z.
  assert (H53 : 0 < 2 ^ 53) by (apply Z.pow_pos_nonneg; lia).
  pose proof (round53_large (Z.abs z)) as Hr.
  destruct (Z.leb_spec overflow_threshold (round53 (Z.abs z))).
  - destruct (Z.ltb_spec z 0); [lia|]. now left.
  - right. eexists; split; [reflexivity|].
    rewrite Z.sgn_pos by lia. lia.
Qed.

Lemma of_Z_below (z : Z) :
  z < - 2 ^ 53 -> of_Z z = NegInf \/ exists z', of_Z z = Fin z' /\ z' <= - 2 ^ 53.
Proof.
  intros Hz. unfold of_Z.
  assert (H53 : 0 < 2 ^ 53) by (apply Z.pow_pos_nonneg; lia).
  pose proof (round53_large (Z.abs z)) as Hr.
  destruct (Z.leb_spec overflow_threshold (round53 (Z.abs z))).
  - destruct (Z.ltb_spec z 0); [|lia]. now left.
  - right. eexists; split; [reflexivity|].
    rewrite Z.sgn_neg by lia. lia.
Qed.

End NumberFacts.

(** ** Facts about the sequencer *)

Section RangeFacts.

Lemma lt_irrefl (x : number) : lt x x = false.
Proof. destruct x; simpl; auto using Z.ltb_irrefl. Qed.




(** Draining spends one [next()] call per value and one for the end. *)
Lemma spread_done (g : Generator) (fuel : nat) :
  fst (next g) = Done -> (0 < fuel)%nat -> spread g fuel = Returns [].
Proof.
  intros H Hf. destruct fuel; [lia|]. simpl.
  destruct (next g) as [[v| |e] g']; simpl in H; congruence.
Qed.

Lemma spread_yield (g g' : Generator) (v : number) (l : list number) (fuel : nat) :
  next g = (Yield v, g') -> spread g' fuel = Returns l ->
  spread g (S fuel) = Returns (v :: l).
Proof. intros H H'. simpl. now rewrite H, H'. Qed.

(** More fuel does not change a finished drain. *)
Lemma spread_more_fuel (g : Generator) (fuel fuel' : nat) :
  (fuel <= fuel')%nat -> spread g fuel <> Unfinished ->
  spread g fuel' = spread g fuel.
Proof.
  revert g fuel'. induction fuel as [|fuel IH]; intros g fuel' Hle Hfin.
  - now contradiction Hfin.
  - destruct fuel' as [|fuel']; [lia|]. simpl in *.
    destruct (next g) as [[v| |e] g']; try reflexivity.
    rewrite (IH g' fuel'); [reflexivity | lia |].
    intros Heq. rewrite Heq in Hfin. now apply Hfin.
Qed.

Lemma spread_deterministic (g : Generator) (f1 f2 : nat) (l1 l2 : list number) :
  spread g f1 = Returns l1 -> spread g f2 = Returns l2 -> l1 = l2.
Proof.
  intros H1 H2.
  destruct (Nat.le_ge_cases f1 f2) as [Hle|Hle].
  - rewrite (spread_more_fuel g f1 f2 Hle) in H2 by (rewrite H1; discriminate).
    congruence.
  - rewrite (spread_more_fuel g f2 f1 Hle) in H1 by (rewrite H2; discriminate).
    congruence.
Qed.

(** The first values of a generator that drains to [l]. *)
Lemma take_of_spread (g : Generator) (fuel : nat) (l : list number) :
  spread g fuel = Returns l -> forall n, take n g = firstn n l.
Proof.
  revert g l. induction fuel as [|fuel IH]; intros g l H n; [discriminate|].
  simpl in H. destruct n as [|n]; [reflexivity|]. simpl.
  destruct (next g) as [[v| |e] g'].
  - destruct (spread g' fuel) as [l'| |] eqn:E; try discriminate.
    injection H as <-. simpl. f_equal. now apply IH.
  - now injection H as <-.
  - discriminate.
Qed.


Lemma ascending_exit (x stop step : number) :
  lt x stop = false -> lt (Fin 0) step = true ->
  ascending_test x stop step = (Done, Completed).
Proof.
  intros Hx Hs. unfold ascending_test, second_block, gt.
  rewrite Hx, Hs. now destruct (lt stop x).
Qed.


Lemma descending_exit (x stop step : number) :
  gt x stop = false -> descending_test x stop step = (Done, Completed).
Proof. intros Hx. unfold descending_test. now rewrite Hx. Qed.


End RangeFacts.

Section RangeContract.

Lemma spread_ext (g g' : Generator) (fuel : nat) :
  next g = next g' -> spread g fuel = spread g' fuel.
Proof. intros H. destruct fuel; simpl; [reflexivity | now rewrite H]. Qed.


Lemma take_done (g : Generator) (n : nat) :
  fst (next g) = Done -> take n g = [].
Proof.
  intros H. destruct n; simpl; [reflexivity|].
  destruct (next g) as [[v| |e] g']; simpl in H; congruence.
Qed.

(** Whatever the first loop yields is below [stop]. *)
Lemma ascending_values (n : nat) :
  forall (g : Generator) (x stop step v : number),
    lt (Fin 0) step = true ->
    next g = ascending_test x stop step ->
    In v (take n g) -> lt v stop = true.
Proof.
  induction n as [|n IH]; intros g x stop step v Hstep Hg Hin; [contradiction|].
  simpl in Hin. rewrite Hg in Hin. unfold ascending_test in Hin.
  destruct (lt x stop) eqn:Hx.
  - destruct Hin as [<-|Hin]; [exact Hx|].
    eapply (IH (InAscending x stop step)); eauto. reflexivity.
  - unfold second_block, gt in Hin. rewrite Hstep in Hin.
    now destruct (lt stop x).
Qed.

(** Whatever the second loop yields is above [stop]. *)
Lemma descending_values (n : nat) :
  forall (g : Generator) (x stop step v : number),
    next g = descending_test x stop step ->
    In v (take n g) -> lt stop v = true.
Proof.
  induction n as [|n IH]; intros g x stop step v Hg Hin; [contradiction|].
  simpl in Hin. rewrite Hg in Hin. unfold descending_test, gt in Hin.
  destruct (lt stop x) eqn:Hx; [|contradiction].
  destruct Hin as [<-|Hin]; [exact Hx|].
  eapply (IH (InDescending x stop step)); eauto. reflexivity.
Qed.

Lemma range3_next (start stop step : number) :
  next (range [num start; num stop; num step]) = guarded start stop step.
Proof. reflexivity. Qed.

(** No value reaches or passes [stop]. *)
Lemma range3_values (start stop step v : number) (n : nat) :
  In v (take n (range [num start; num stop; num step])) ->
  (lt (Fin 0) step = true -> lt v stop = true) /\
  (lt step (Fin 0) = true -> lt stop v = true).
Proof.
  intros Hin. pose proof (range3_next start stop step) as Hnext.
  unfold guarded, first_block, second_block, gt in Hnext.
  set (g := range [num start; num stop; num step]) in *.
  destruct (isNaN start || isNaN stop || isNaN step)%bool.
  { rewrite take_done in Hin by (now rewrite Hnext). contradiction. }
  destruct (strict_eq start stop || falsy step)%bool.
  { rewrite take_done in Hin by (now rewrite Hnext). contradiction. }
  destruct (lt start stop) eqn:Hlt.
  - destruct (lt step (Fin 0)) eqn:Hneg.
    + rewrite take_done in Hin by (now rewrite Hnext). contradiction.
    + split; [|discriminate]. intros Hpos.
      eapply ascending_values; eauto.
  - destruct (lt stop start) eqn:Hgt.
    + destruct (lt (Fin 0) step) eqn:Hpos.
      * rewrite take_done in Hin by (now rewrite Hnext). contradiction.
      * split; [discriminate|]. intros _.
        eapply descending_values; eauto.
    + rewrite take_done in Hin by (now rewrite Hnext). contradiction.
Qed.

(** The sequencer never hands out its [stop]. *)
Lemma range3_excludes_stop (start stop step : number) (n : nat) :
  ~ In stop (take n (range [num start; num stop; num step])).
Proof.
  intros Hin. destruct (range3_values _ _ _ _ _ Hin) as [Hup Hdown].
  destruct (lt (Fin 0) step) eqn:Hpos.
  - specialize (Hup eq_refl). now rewrite lt_irrefl in Hup.
  - destruct (lt step (Fin 0)) eqn:Hneg.
    + specialize (Hdown eq_refl). now rewrite lt_irrefl in Hdown.
    + rewrite take_done in Hin; [contradiction|].
      rewrite range3_next. unfold guarded.
      destruct (isNaN start || isNaN stop || isNaN step)%bool; [reflexivity|].
      replace (falsy step) with true.
      * now rewrite orb_true_r.
      * destruct step as [| |c|]; simpl in *; try discriminate; try reflexivity.
        apply Z.ltb_ge in Hpos, Hneg. now replace c with 0 by lia.
Qed.


Lemma guarded_fin (a b : Z) (step : number) :
  guarded (Fin a) (Fin b) step =
  if isNaN step then (Done, Completed)
  else if ((a =? b) || falsy step)%bool then (Done, Completed)
  else first_block (Fin a) (Fin b) step.
Proof. reflexivity. Qed.


End RangeContract.

(** ** Facts about computations *)

Section ExecFacts.

Lemma monotone_ret {A} (a : A) : monotone (ret a).
Proof. now intros f f' _ _. Qed.

Lemma monotone_throw {A} (e : JsError) : monotone (@throw A e).
Proof. now intros f f' _ _. Qed.

Lemma monotone_bind {A B} (m : Exec A) (k : A -> Exec B) :
  monotone m -> (forall a, monotone (k a)) -> monotone (bind m k).
Proof.
  intros Hm Hk f f' Hle Hfin. unfold bind in *.
  destruct (m f) as [a|e|] eqn:E.
  - rewrite (Hm f f' Hle), E by (rewrite E; discriminate).
    now apply Hk.
  - now rewrite (Hm f f' Hle), E by (rewrite E; discriminate).
  - now contradiction Hfin.
Qed.

Lemma monotone_for_of {A S} (xs : list A) (body : S -> A -> Exec S) :
  (forall s x, monotone (body s x)) ->
  forall acc, monotone (for_of xs body acc).
Proof.
  intros Hbody. induction xs as [|x xs IH]; intros acc; simpl.
  - apply monotone_ret.
  - apply monotone_bind; [apply Hbody | intros; apply IH].
Qed.

Lemma monotone_spread (g : Generator) : monotone (spread g).
Proof. intros f f' Hle Hfin. now apply spread_more_fuel. Qed.

Lemma monotone_returns {A} (m : Exec A) (fuel fuel' : nat) (a : A) :
  monotone m -> m fuel = Returns a -> (fuel <= fuel')%nat ->
  m fuel' = Returns a.
Proof.
  intros Hm H Hle. rewrite (Hm fuel fuel' Hle); [exact H|].
  rewrite H. discriminate.
Qed.

Lemma monotone_throws {A} (m : Exec A) (fuel fuel' : nat) (e : JsError) :
  monotone m -> m fuel = Throws e -> (fuel <= fuel')%nat ->
  m fuel' = Throws e.
Proof.
  intros Hm H Hle. rewrite (Hm fuel fuel' Hle); [exact H|].
  rewrite H. discriminate.
Qed.

Lemma bind_returns {A B} (m : Exec A) (k : A -> Exec B) (fuel : nat) (b : B) :
  bind m k fuel = Returns b ->
  exists a, m fuel = Returns a /\ k a fuel = Returns b.
Proof.
  unfold bind. destruct (m fuel) as [a|e|]; try discriminate.
  intros H. now exists a.
Qed.

(** An invariant of the accumulator of a loop holds of its result. *)
Lemma for_of_invariant {A S} (P : S -> Prop) (Q : A -> Prop)
      (body : S -> A -> Exec S) (fuel : nat) :
  (forall s x s', Q x -> P s -> body s x fuel = Returns s' -> P s') ->
  forall xs acc r,
    Forall Q xs -> P acc -> for_of xs body acc fuel = Returns r -> P r.
Proof.
  intros Hbody. induction xs as [|x xs IH]; intros acc r HQ HP H; simpl in H.
  - now injection H as <-.
  - apply bind_returns in H. destruct H as [s' [H1 H2]].
    inversion HQ as [|? ? Hx Hxs]; subst.
    apply (IH s' r Hxs); [eapply Hbody; eauto | exact H2].
Qed.

End ExecFacts.

Create HintDb monotone_db.

#[local] Hint Resolve monotone_ret monotone_throw monotone_spread : monotone_db.

Ltac monotone_step :=
  first
    [ solve [auto with monotone_db nocore]
    | apply monotone_bind; [|intros]
    | apply monotone_for_of; intros
    | match goal with
      | |- monotone (if ?b then _ else _) => destruct b
      | |- monotone (match ?x with _ => _ end) => destruct x
      end ].

Ltac monotone_auto := repeat monotone_step.

Section ExpanderMonotone.

Lemma monotone_assertTokenType t ty : monotone (assertTokenType t ty).
Proof. unfold assertTokenType. monotone_auto. Qed.

Lemma monotone_assertChildrenLengthEQ t n : monotone (assertChildrenLengthEQ t n).
Proof. unfold assertChildrenLengthEQ. monotone_auto. Qed.

Lemma monotone_assertChildrenLengthGEQ t n : monotone (assertChildrenLengthGEQ t n).
Proof. unfold assertChildrenLengthGEQ. monotone_auto. Qed.

Lemma monotone_assertChildrenLengthLEQ t n : monotone (assertChildrenLengthLEQ t n).
Proof. unfold assertChildrenLengthLEQ. monotone_auto. Qed.

Lemma monotone_item a i : monotone (item a i).
Proof. unfold item. monotone_auto. Qed.

Hint Resolve monotone_assertTokenType monotone_assertChildrenLengthEQ
  monotone_assertChildrenLengthGEQ monotone_assertChildrenLengthLEQ
  monotone_item : monotone_db.

Lemma monotone_parseDayOfTheWeek t : monotone (parseDayOfTheWeek t).
Proof. unfold parseDayOfTheWeek. monotone_auto. Qed.

Hint Resolve monotone_parseDayOfTheWeek : monotone_db.

Lemma monotone_parseRangedWeekDaySpec t : monotone (parseRangedWeekDaySpec t).
Proof. unfold parseRangedWeekDaySpec. monotone_auto. Qed.

Hint Resolve monotone_parseRangedWeekDaySpec : monotone_db.

Lemma monotone_parseWeekDaySpecEntry t : monotone (parseWeekDaySpecEntry t).
Proof. unfold parseWeekDaySpecEntry. monotone_auto. Qed.

Hint Resolve monotone_parseWeekDaySpecEntry : monotone_db.

Lemma monotone_expandWeekDaySpec t : monotone (expandWeekDaySpec t).
Proof. unfold expandWeekDaySpec. monotone_auto. Qed.

Lemma monotone_grandparentType t : monotone (grandparentType t).
Proof. unfold grandparentType. monotone_auto. Qed.

Lemma monotone_expandRangedTimeUnit t m : monotone (expandRangedTimeUnit t m).
Proof. unfold expandRangedTimeUnit. monotone_auto. Qed.

Lemma monotone_expandRepeatedTimeUnit t m : monotone (expandRepeatedTimeUnit t m).
Proof. unfold expandRepeatedTimeUnit. monotone_auto. Qed.

Lemma monotone_expandTimeUnit t : monotone (expandTimeUnit t).
Proof. unfold expandTimeUnit. monotone_auto. Qed.

Hint Resolve monotone_grandparentType monotone_expandRangedTimeUnit
  monotone_expandRepeatedTimeUnit monotone_expandTimeUnit : monotone_db.

Lemma monotone_expandTimeUnitSpecEntry t : monotone (expandTimeUnitSpecEntry t).
Proof. unfold expandTimeUnitSpecEntry. monotone_auto. Qed.

Hint Resolve monotone_expandTimeUnitSpecEntry : monotone_db.

Lemma monotone_expandTimeUnitSpec ts : monotone (expandTimeUnitSpec ts).
Proof. unfold expandTimeUnitSpec. monotone_auto. Qed.

Hint Resolve monotone_expandTimeUnitSpec : monotone_db.

Lemma monotone_expandDateSpec t : monotone (expandDateSpec t).
Proof. unfold expandDateSpec. monotone_auto. Qed.

Lemma monotone_expandSpecialExpression t : monotone (expandSpecialExpression t).
Proof. unfold expandSpecialExpression. monotone_auto. Qed.

Lemma monotone_getNext c t r : monotone (getNext c t r).
Proof. unfold getNext. monotone_auto. Qed.

End ExpanderMonotone.

(** ** Facts about sets and the default sort *)

Section SetFacts.
Context {A : Type} (eq_dec : forall x y : A, {x = y} + {x <> y}).

Lemma Set_add_In (s : list A) (x y : A) :
  In y (Set_add eq_dec s x) <-> In y s \/ y = x.
Proof.
  unfold Set_add. destruct (in_dec eq_dec x s) as [Hin|Hnot].
  - split; [now left | intros [H| ->]; assumption].
  - rewrite in_app_iff. simpl. intuition congruence.
Qed.

Lemma Set_add_NoDup (s : list A) (x : A) :
  NoDup s -> NoDup (Set_add eq_dec s x).
Proof.
  intros Hs. unfold Set_add. destruct (in_dec eq_dec x s) as [Hin|Hnot]; [exact Hs|].
  apply (Permutation_NoDup (Permutation_cons_append s x)).
  now constructor.
Qed.

Lemma fold_Set_add_In (l s : list A) (y : A) :
  In y (fold_left (Set_add eq_dec) l s) <-> In y s \/ In y l.
Proof.
  revert s. induction l as [|x l IH]; intros s; simpl.
  - tauto.
  - rewrite IH, Set_add_In. intuition congruence.
Qed.

Lemma fold_Set_add_NoDup (l s : list A) :
  NoDup s -> NoDup (fold_left (Set_add eq_dec) l s).
Proof.
  revert s. induction l as [|x l IH]; intros s Hs; simpl; [exact Hs|].
  apply IH. now apply Set_add_NoDup.
Qed.

(** The first value added stays first. *)
Lemma fold_Set_add_head (l s : list A) (x : A) :
  exists rest, fold_left (Set_add eq_dec) l (x :: s) = x :: rest.
Proof.
  revert s. induction l as [|y l IH]; intros s; simpl.
  - now exists s.
  - unfold Set_add at 2. destruct (in_dec eq_dec y (x :: s)); [apply IH|].
    apply (IH (s ++ [y])).
Qed.

(** A list without repetition is the set of its own values. *)
Lemma fold_Set_add_NoDup_id (l s : list A) :
  NoDup (s ++ l) -> fold_left (Set_add eq_dec) l s = s ++ l.
Proof.
  revert s. induction l as [|x l IH]; intros s Hnd; simpl.
  - now rewrite app_nil_r.
  - unfold Set_add. destruct (in_dec eq_dec x s) as [Hin|Hnot].
    + exfalso. apply NoDup_remove_2 in Hnd. apply Hnd.
      apply in_or_app. now left.
    + rewrite IH; rewrite <- app_assoc; [reflexivity | exact Hnd].
Qed.

Lemma Set_of_NoDup_id (l : list A) : NoDup l -> Set_of eq_dec l = l.
Proof. intros H. unfold Set_of. now rewrite fold_Set_add_NoDup_id. Qed.

End SetFacts.

Section SortFacts.

Lemma default_le_total (x y : number) :
  default_le x y = false -> default_le y x = true.
Proof.
  unfold default_le. intros H.
  destruct (String.leb_total (toString x) (toString y)); congruence.
Qed.

Lemma insert_sorted_perm (x : number) (l : list number) :
  Permutation (insert_sorted x l) (x :: l).
Proof.
  induction l as [|y l IH]; simpl; [reflexivity|].
  destruct (default_le x y); [reflexivity|].
  rewrite IH. apply perm_swap.
Qed.

Lemma sort_perm (l : list number) : Permutation (sort l) l.
Proof.
  induction l as [|x l IH]; simpl; [reflexivity|].
  now rewrite insert_sorted_perm, IH.
Qed.

Lemma insert_sorted_sorted (x : number) (l : list number) :
  Sorted (fun a b => default_le a b = true) l ->
  Sorted (fun a b => default_le a b = true) (insert_sorted x l).
Proof.
  induction l as [|y l IH]; intros Hs; simpl.
  - repeat constructor.
  - destruct (default_le x y) eqn:Hxy.
    + constructor; [exact Hs | now constructor].
    + inversion Hs as [|? ? Hs' Hhd]; subst.
      constructor; [now apply IH|].
      destruct l as [|z l]; simpl.
      * constructor. now apply default_le_total.
      * destruct (default_le x z); constructor.
        -- now apply default_le_total.
        -- now inversion Hhd.
Qed.

Lemma sort_sorted (l : list number) :
  Sorted (fun a b => default_le a b = true) (sort l).
Proof.
  induction l as [|x l IH]; simpl; [constructor|].
  now apply insert_sorted_sorted.
Qed.

(** Sorting a list that is in order already changes nothing. *)
Lemma sort_sorted_id (l : list number) :
  Sorted (fun a b => default_le a b = true) l -> sort l = l.
Proof.
  induction l as [|x l IH]; intros Hs; [reflexivity|].
  inversion Hs as [|? ? Hs' Hhd]; subst. simpl. rewrite (IH Hs').
  destruct l as [|y l]; [reflexivity|]. simpl.
  inversion Hhd as [|? ? Hxy]; subst. now rewrite Hxy.
Qed.

End SortFacts.

(** ** Facts about the weekday expander *)

Section WeekdayFacts.
Local Open Scope string_scope.

Lemma day_name_index (s : string) :
  In s DAY_NAMES -> 0 <= indexOf SHORT_DAY_NAMES (substring 0 3 s) <= 6.
Proof.
  unfold DAY_NAMES. simpl In.
  intros H; repeat (destruct H as [<-|H]; [vm_compute; split; discriminate|]).
  contradiction.
Qed.

Lemma day_index_range (s : string) : is_day_name s -> 0 <= day_index s <= 6.
Proof. intros H. now apply day_name_index. Qed.

Lemma digit_order (a b : Z) :
  0 <= a <= 6 -> 0 <= b <= 6 -> default_le (Fin a) (Fin b) = (a <=? b)%Z.
Proof.
  intros Ha Hb.
  assert (Ea : a = 0 \/ a = 1 \/ a = 2 \/ a = 3 \/ a = 4 \/ a = 5 \/ a = 6) by lia.
  assert (Eb : b = 0 \/ b = 1 \/ b = 2 \/ b = 3 \/ b = 4 \/ b = 5 \/ b = 6) by lia.
  repeat (destruct Ea as [->|Ea]); subst;
    repeat (destruct Eb as [->|Eb]); subst; reflexivity.
Qed.

(** On indexes of days the default sort orders by value. *)
Lemma sorted_weekdays_ascending (l : list number) :
  Forall weekday_index l -> NoDup l ->
  Sorted (fun a b => default_le a b = true) l -> ascending l.
Proof.
  induction l as [|x l IH]; intros Hall Hnd Hs; [constructor|].
  inversion Hall as [|? ? [a [-> Ha]] Hall']; subst.
  inversion Hnd as [|? ? Hnotin Hnd']; subst.
  inversion Hs as [|? ? Hs' Hhd]; subst.
  constructor; [now apply IH|].
  destruct l as [|y l]; constructor.
  inversion Hall' as [|? ? [b [-> Hb]] _]; subst.
  inversion Hhd as [|? ? Hle]; subst.
  rewrite digit_order in Hle by assumption.
  apply Z.leb_le in Hle. simpl. apply Z.ltb_lt.
  assert (a <> b) by (intros ->; apply Hnotin; now left). lia.
Qed.

Lemma ascending_weekdays_sorted (l : list number) :
  Forall weekday_index l -> ascending l ->
  Sorted (fun a b => default_le a b = true) l.
Proof.
  induction l as [|x l IH]; intros Hall Hs; [constructor|].
  inversion Hall as [|? ? [a [-> Ha]] Hall']; subst.
  inversion Hs as [|? ? Hs' Hhd]; subst.
  constructor; [now apply IH|].
  destruct l as [|y l]; constructor.
  inversion Hall' as [|? ? [b [-> Hb]] _]; subst.
  inversion Hhd as [|? ? Hlt]; subst. simpl in Hlt. apply Z.ltb_lt in Hlt.
  rewrite digit_order by assumption. apply Z.leb_le. lia.
Qed.

Lemma ascending_NoDup (l : list number) :
  Forall weekday_index l -> ascending l -> NoDup l.
Proof.
  intros Hall Hs.
  assert (Hstrong : StronglySorted (fun x y => lt x y = true) l).
  { apply Sorted_StronglySorted; [|exact Hs].
    intros x y z Hxy Hyz.
    destruct x, y, z; simpl in *; try discriminate; try reflexivity.
    apply Z.ltb_lt in Hxy, Hyz. apply Z.ltb_lt. lia. }
  clear Hs Hall. induction Hstrong as [|x l Hst IH Hx]; constructor; [|exact IH].
  intros Hin. rewrite Forall_forall in Hx. specialize (Hx x Hin).
  now rewrite lt_irrefl in Hx.
Qed.

Lemma children_well_formed (tokens c : IToken) :
  days_well_formed tokens -> In c (children tokens) -> days_well_formed c.
Proof.
  unfold days_well_formed, extractTextForType, children.
  destruct tokens as [[ty tx cs] anc]. simpl.
  intros Hall Hin. apply in_map_iff in Hin. destruct Hin as [c0 [<- Hc0]].
  simpl. apply Forall_app in Hall. destruct Hall as [_ Hall].
  rewrite Forall_forall in *. intros s Hs. apply Hall.
  apply in_flat_map. now exists c0.
Qed.

Lemma assertTokenType_returns (t : IToken) (ty : string) (fuel : nat) (u : unit) :
  assertTokenType t ty fuel = Returns u -> type t = ty.
Proof.
  unfold assertTokenType. destruct (String.eqb_spec (type t) ty); [auto|discriminate].
Qed.

Lemma parseDayOfTheWeek_values (tokens : IToken) (fuel : nat) (l : list number) :
  days_well_formed tokens ->
  parseDayOfTheWeek tokens fuel = Returns l -> Forall weekday_index l.
Proof.
  intros Hwf H. unfold parseDayOfTheWeek in H.
  apply bind_returns in H. destruct H as [_ [_ H]].
  injection H as <-. apply Forall_forall. intros v Hv.
  apply in_map_iff in Hv. destruct Hv as [s [<- Hs]].
  apply (proj1 (fold_Set_add_In string_dec _ _ _)) in Hs.
  destruct Hs as [[]|Hs].
  apply in_map_iff in Hs. destruct Hs as [d [<- Hd]].
  exists (day_index d). split; [reflexivity|].
  apply day_index_range.
  unfold days_well_formed in Hwf. rewrite Forall_forall in Hwf. now apply Hwf.
Qed.

(** The own text of a [DayOfTheWeek] node comes first. *)
Lemma parseDayOfTheWeek_first (anc cs : list Tree) (name : string) (fuel : nat) :
  exists rest,
    parseDayOfTheWeek (mkToken (Node "DayOfTheWeek" name cs) anc) fuel
    = Returns (Fin (day_index name) :: rest).
Proof.
  unfold parseDayOfTheWeek, bind.
  assert (E1 : assertTokenType (mkToken (Node "DayOfTheWeek" name cs) anc)
                 "DayOfTheWeek" fuel = Returns tt) by reflexivity.
  assert (E2 : extractTextForType (mkToken (Node "DayOfTheWeek" name cs) anc)
                 "DayOfTheWeek"
               = name :: flat_map (extractText "DayOfTheWeek") cs) by reflexivity.
  assert (E3 : forall x l, string_Set_of (x :: l)
                           = fold_left (Set_add string_dec) l [x]) by reflexivity.
  rewrite E1, E2, map_cons, E3.
  destruct (fold_Set_add_head string_dec
              (map (fun day => substring 0 3 (toLowerCase day))
                   (flat_map (extractText "DayOfTheWeek") cs))
              [] (substring 0 3 (toLowerCase name))) as [rest Hrest].
  rewrite Hrest.
  now exists (map (fun day => Fin (indexOf SHORT_DAY_NAMES day)) rest).
Qed.

(** The weekdays from [i] to [j]. *)
Lemma weekday_interval (i j : Z) (fuel : nat) :
  0 <= i <= 6 -> 0 <= j <= 6 -> i <= j -> (8 <= fuel)%nat ->
  spread (range [num (Fin i); num (add (Fin j) (Fin 1))]) fuel
  = Returns (interval i j).
Proof.
  intros Hi Hj Hij Hf.
  apply (monotone_returns _ 8 fuel); [apply monotone_spread | | exact Hf].
  assert (Ei : i = 0 \/ i = 1 \/ i = 2 \/ i = 3 \/ i = 4 \/ i = 5 \/ i = 6) by lia.
  assert (Ej : j = 0 \/ j = 1 \/ j = 2 \/ j = 3 \/ j = 4 \/ j = 5 \/ j = 6) by lia.
  repeat (destruct Ei as [->|Ei]); subst;
    repeat (destruct Ej as [->|Ej]); subst; try lia; reflexivity.
Qed.

Lemma interval_values (i j : Z) :
  0 <= i -> j <= 6 -> Forall weekday_index (interval i j).
Proof.
  intros Hi Hj. unfold interval. apply Forall_forall. intros v Hv.
  apply in_map_iff in Hv. destruct Hv as [k [<- Hk]].
  apply in_seq in Hk. exists (i + Z.of_nat k). split; [reflexivity|lia].
Qed.

(** What two-argument calls on indexes of days can return. *)
Lemma range2_weekdays (x y : list number) (fuel : nat) (l : list number) :
  Forall weekday_index x -> Forall weekday_index y ->
  lt (Number (first_value y)) (Number (first_value x)) = false ->
  spread (range [first_value x;
                 num (add (Number (first_value y)) (Fin 1))]) fuel = Returns l ->
  Forall weekday_index l.
Proof.
  intros Hx Hy Hord Hrun.
  destruct x as [|vx x].
  { destruct fuel; [discriminate|]. simpl in Hrun. now injection Hrun as <-. }
  destruct y as [|vy y].
  { destruct fuel; [discriminate|]. simpl in Hrun.
    inversion Hx as [|? ? [i [-> Hi]] _]; subst. simpl in Hrun.
    now injection Hrun as <-. }
  inversion Hx as [|? ? [i [-> Hi]] _]; subst.
  inversion Hy as [|? ? [j [-> Hj]] _]; subst.
  simpl in Hord, Hrun. apply Z.ltb_ge in Hord.
  pose proof (weekday_interval i j (Nat.max fuel 8) Hi Hj Hord (Nat.le_max_r _ _)) as Hw.
  simpl first_value in *. simpl Number in *.
  rewrite (spread_deterministic _ _ _ _ _ Hrun Hw).
  apply interval_values; lia.
Qed.

Lemma parseRangedWeekDaySpec_values (tokens : IToken) (fuel : nat) (l : list number) :
  days_well_formed tokens ->
  parseRangedWeekDaySpec tokens fuel = Returns l -> Forall weekday_index l.
Proof.
  intros Hwf H. unfold parseRangedWeekDaySpec in H.
  apply bind_returns in H. destruct H as [_ [_ H]].
  apply bind_returns in H. destruct H as [_ [_ H]].
  apply bind_returns in H. destruct H as [c0 [Hc0 H]].
  apply bind_returns in H. destruct H as [d0 [Hd0 H]].
  apply bind_returns in H. destruct H as [c1 [Hc1 H]].
  apply bind_returns in H. destruct H as [d1 [Hd1 H]].
  assert (Hin : forall i c, item (children tokens) i fuel = Returns c ->
                            In c (children tokens)).
  { intros i c Hi. unfold item in Hi.
    destruct (nth_error (children tokens) i) eqn:E; [|discriminate].
    injection Hi as <-. eapply nth_error_In; eauto. }
  apply parseDayOfTheWeek_values in Hd0;
    [|apply (children_well_formed tokens); [exact Hwf | exact (Hin _ _ Hc0)]].
  apply parseDayOfTheWeek_values in Hd1;
    [|apply (children_well_formed tokens); [exact Hwf | exact (Hin _ _ Hc1)]].
  destruct (lt (Number (first_value d1)) (Number (first_value d0))) eqn:Hord;
    [discriminate|].
  exact (range2_weekdays d0 d1 fuel l Hd0 Hd1 Hord H).
Qed.

Lemma parseWeekDaySpecEntry_values (tokens : IToken) (fuel : nat) (l : list number) :
  days_well_formed tokens ->
  parseWeekDaySpecEntry tokens fuel = Returns l -> Forall weekday_index l.
Proof.
  intros Hwf H. unfold parseWeekDaySpecEntry in H.
  apply bind_returns in H. destruct H as [_ [_ H]].
  apply bind_returns in H. destruct H as [_ [_ H]].
  eapply (for_of_invariant (Forall weekday_index) days_well_formed);
    [| | constructor | exact H].
  - intros s x s' Hx Hs Hbody. cbv beta in Hbody.
    destruct (String.eqb (type x) "RangedWeekDaySpec").
    + apply bind_returns in Hbody. destruct Hbody as [more [Hmore Hret]].
      injection Hret as <-. apply Forall_app. split; [exact Hs|].
      eapply parseRangedWeekDaySpec_values; eauto.
    + destruct (String.eqb (type x) "DayOfTheWeek"); [|discriminate].
      apply bind_returns in Hbody. destruct Hbody as [more [Hmore Hret]].
      injection Hret as <-. apply Forall_app. split; [exact Hs|].
      eapply parseDayOfTheWeek_values; eauto.
  - apply Forall_forall. intros c Hc. eapply children_well_formed; eauto.
Qed.

(** The set of days collected by [expandWeekDaySpec] before sorting. *)
Lemma expandWeekDaySpec_set (tokens : IToken) (fuel : nat) (l : list number) :
  days_well_formed tokens ->
  expandWeekDaySpec tokens fuel = Returns l ->
  exists days, l = sort days /\ Forall weekday_index days /\ NoDup days.
Proof.
  intros Hwf H. unfold expandWeekDaySpec in H.
  apply bind_returns in H. destruct H as [_ [_ H]].
  apply bind_returns in H. destruct H as [_ [_ H]].
  apply bind_returns in H. destruct H as [days [Hdays H]].
  injection H as <-. exists days. split; [reflexivity|].
  eapply (for_of_invariant (fun s => Forall weekday_index s /\ NoDup s)
            days_well_formed);
    [| | split; constructor | exact Hdays].
  - intros s x s' Hx [Hs Hnd] Hbody. cbv beta in Hbody.
    apply bind_returns in Hbody. destruct Hbody as [entry [Hentry Hret]].
    injection Hret as <-. split.
    + apply Forall_forall. intros v Hv.
      apply (proj1 (fold_Set_add_In number_eq_dec _ _ _)) in Hv.
      pose proof (parseWeekDaySpecEntry_values _ _ _ Hx Hentry) as He.
      rewrite Forall_forall in Hs, He. destruct Hv; auto.
    + now apply fold_Set_add_NoDup.
  - apply Forall_forall. intros c Hc. eapply children_well_formed; eauto.
Qed.

End WeekdayFacts.

(** ** Termination of the weekday expander *)

Section WeekdayTermination.
Local Open Scope string_scope.

Lemma bind_finishes {A B} (m : Exec A) (k : A -> Exec B) (fuel : nat) :
  m fuel <> Unfinished ->
  (forall a, m fuel = Returns a -> k a fuel <> Unfinished) ->
  bind m k fuel <> Unfinished.
Proof.
  intros Hm Hk. unfold bind. destruct (m fuel) as [a|e|] eqn:E.
  - now apply Hk.
  - discriminate.
  - now contradiction Hm.
Qed.

Lemma for_of_finishes {A S} (Q : A -> Prop) (body : S -> A -> Exec S) (fuel : nat) :
  (forall s x, Q x -> body s x fuel <> Unfinished) ->
  forall xs acc, Forall Q xs -> for_of xs body acc fuel <> Unfinished.
Proof.
  intros Hbody. induction xs as [|x xs IH]; intros acc HQ; simpl.
  - discriminate.
  - inversion HQ as [|? ? Hx Hxs]; subst.
    apply bind_finishes; [now apply Hbody | intros; now apply IH].
Qed.

Lemma assertTokenType_finishes t ty fuel : assertTokenType t ty fuel <> Unfinished.
Proof. unfold assertTokenType. now destruct (String.eqb (type t) ty). Qed.

Lemma assertChildrenLengthEQ_finishes t n fuel :
  assertChildrenLengthEQ t n fuel <> Unfinished.
Proof. unfold assertChildrenLengthEQ. now destruct (Nat.eqb _ _). Qed.

Lemma assertChildrenLengthGEQ_finishes t n fuel :
  assertChildrenLengthGEQ t n fuel <> Unfinished.
Proof. unfold assertChildrenLengthGEQ. now destruct (Nat.ltb _ _). Qed.

Lemma item_finishes a i fuel : item a i fuel <> Unfinished.
Proof. unfold item. now destruct (nth_error a i). Qed.

Lemma item_In a i fuel c : item a i fuel = Returns c -> In c a.
Proof.
  unfold item. destruct (nth_error a i) eqn:E; [|discriminate].
  intros H. injection H as <-. eapply nth_error_In; eauto.
Qed.

Lemma parseDayOfTheWeek_finishes t fuel : parseDayOfTheWeek t fuel <> Unfinished.
Proof.
  unfold parseDayOfTheWeek. apply bind_finishes.
  - apply assertTokenType_finishes.
  - discriminate.
Qed.

Lemma range2_weekdays_finishes (x y : list number) (fuel : nat) :
  Forall weekday_index x -> Forall weekday_index y -> (8 <= fuel)%nat ->
  lt (Number (first_value y)) (Number (first_value x)) = false ->
  spread (range [first_value x;
                 num (add (Number (first_value y)) (Fin 1))]) fuel <> Unfinished.
Proof.
  intros Hx Hy Hf Hord.
  destruct fuel as [|fuel]; [lia|].
  destruct x as [|vx x]; [discriminate|].
  inversion Hx as [|? ? [i [-> Hi]] _]; subst.
  destruct y as [|vy y]; [discriminate|].
  inversion Hy as [|? ? [j [-> Hj]] _]; subst.
  simpl in Hord. apply Z.ltb_ge in Hord.
  cbn [first_value Number].
  now rewrite (weekday_interval i j (S fuel) Hi Hj Hord Hf).
Qed.

Lemma parseRangedWeekDaySpec_finishes (tokens : IToken) (fuel : nat) :
  days_well_formed tokens -> (8 <= fuel)%nat ->
  parseRangedWeekDaySpec tokens fuel <> Unfinished.
Proof.
  intros Hwf Hf. unfold parseRangedWeekDaySpec.
  apply bind_finishes; [apply assertTokenType_finishes|]. intros _ _.
  apply bind_finishes; [apply assertChildrenLengthEQ_finishes|]. intros _ _.
  apply bind_finishes; [apply item_finishes|]. intros c0 Hc0.
  apply bind_finishes; [apply parseDayOfTheWeek_finishes|]. intros d0 Hd0.
  apply bind_finishes; [apply item_finishes|]. intros c1 Hc1.
  apply bind_finishes; [apply parseDayOfTheWeek_finishes|]. intros d1 Hd1.
  apply parseDayOfTheWeek_values in Hd0;
    [|apply (children_well_formed tokens); [exact Hwf | exact (item_In _ _ _ _ Hc0)]].
  apply parseDayOfTheWeek_values in Hd1;
    [|apply (children_well_formed tokens); [exact Hwf | exact (item_In _ _ _ _ Hc1)]].
  destruct (lt (Number (first_value d1)) (Number (first_value d0))) eqn:Hord;
    [discriminate|].
  now apply range2_weekdays_finishes.
Qed.

Lemma parseWeekDaySpecEntry_finishes (tokens : IToken) (fuel : nat) :
  days_well_formed tokens -> (8 <= fuel)%nat ->
  parseWeekDaySpecEntry tokens fuel <> Unfinished.
Proof.
  intros Hwf Hf. unfold parseWeekDaySpecEntry.
  apply bind_finishes; [apply assertTokenType_finishes|]. intros _ _.
  apply bind_finishes; [apply assertChildrenLengthGEQ_finishes|]. intros _ _.
  apply (for_of_finishes days_well_formed).
  - intros s x Hx.
    destruct (String.eqb (type x) "RangedWeekDaySpec").
    + apply bind_finishes; [now apply parseRangedWeekDaySpec_finishes | discriminate].
    + destruct (String.eqb (type x) "DayOfTheWeek"); [|discriminate].
      apply bind_finishes; [apply parseDayOfTheWeek_finishes | discriminate].
  - apply Forall_forall. intros c Hc. eapply children_well_formed; eauto.
Qed.

(** With room for eight [next()] calls per range the weekday expander ends. *)
Lemma expandWeekDaySpec_finishes (tokens : IToken) (fuel : nat) :
  days_well_formed tokens -> (8 <= fuel)%nat ->
  expandWeekDaySpec tokens fuel <> Unfinished.
Proof.
  intros Hwf Hf. unfold expandWeekDaySpec.
  apply bind_finishes; [apply assertTokenType_finishes|]. intros _ _.
  apply bind_finishes; [apply assertChildrenLengthGEQ_finishes|]. intros _ _.
  apply bind_finishes; [|discriminate].
  apply (for_of_finishes days_well_formed).
  - intros s x Hx.
    apply bind_finishes; [now apply parseWeekDaySpecEntry_finishes | discriminate].
  - apply Forall_forall. intros c Hc. eapply children_well_formed; eauto.
Qed.

End WeekdayTermination.

(** ** Facts about the time-unit expander *)

Section TimeUnitFacts.
Local Open Scope string_scope.

Lemma expandTimeUnitSpec_sorted_set (tokens : list IToken) (fuel : nat)
      (l : list number) :
  expandTimeUnitSpec tokens fuel = Returns l ->
  NoDup l /\ Sorted (fun a b => default_le a b = true) l.
Proof.
  intros H. unfold expandTimeUnitSpec in H.
  apply bind_returns in H. destruct H as [values [_ H]].
  injection H as <-. split; [|apply sort_sorted].
  apply (Permutation_NoDup (Permutation_sym (sort_perm _))).
  apply fold_Set_add_NoDup. constructor.
Qed.

(** An entry [a..b] is the call [range(a, min(b, max), 1)]. *)
Lemma ranged_entry (anc scs fcs : list Tree) (sty stx ty ftx a b : string)
      (maxEndValue : number) (fuel : nat) :
  Map_get tokenTypeToMaximumValue ty = Some maxEndValue ->
  expandTimeUnitSpecEntry
    (mkToken (Ast.ranged a b) (Node sty stx scs :: Node ty ftx fcs :: anc)) fuel
  = spread (range [num (Number (str a));
                   num (min (Number (str b)) maxEndValue);
                   num (Fin 1)]) fuel.
Proof.
  intros Hmax. unfold expandTimeUnitSpecEntry, bind.
  cbn -[Number min spread Map_get]. rewrite Hmax.
  cbn -[Number min spread]. unfold bind.
  now destruct (spread _ fuel).
Qed.

(** An entry [a..b/c] is the call [range(a, min(b, max), c)]. *)
Lemma ranged_step_entry (anc scs fcs : list Tree) (sty stx ty ftx a b c : string)
      (maxEndValue : number) (fuel : nat) :
  Map_get tokenTypeToMaximumValue ty = Some maxEndValue ->
  expandTimeUnitSpecEntry
    (mkToken (Ast.rangedStep a b c) (Node sty stx scs :: Node ty ftx fcs :: anc)) fuel
  = spread (range [num (Number (str a));
                   num (min (Number (str b)) maxEndValue);
                   num (Number (str c))]) fuel.
Proof.
  intros Hmax. unfold expandTimeUnitSpecEntry, bind.
  cbn -[Number min spread Map_get]. rewrite Hmax.
  cbn -[Number min spread]. unfold bind.
  now destruct (spread _ fuel).
Qed.

End TimeUnitFacts.

(** ** The sequencer's contract *)

Module RangeClaims.

Example range_one_argument :
  spread (range [num (Fin 3)]) 4 = Returns [Fin 0; Fin 1; Fin 2].
Proof. reflexivity. Qed.

Example range_two_arguments :
  spread (range [num (Fin 2); num (Fin 5)]) 4 = Returns [Fin 2; Fin 3; Fin 4].
Proof. reflexivity. Qed.

Example range_with_step :
  spread (range [num (Fin 0); num (Fin 5); num (Fin 2)]) 4
  = Returns [Fin 0; Fin 2; Fin 4].
Proof. reflexivity. Qed.

Example range_downwards :
  spread (range [num (Fin 5); num (Fin 0); num (Fin (-1))]) 6
  = Returns [Fin 5; Fin 4; Fin 3; Fin 2; Fin 1].
Proof. reflexivity. Qed.

Example range_single_year :
  spread (range [num (Fin 2025); num (Fin 2026)]) 2 = Returns [Fin 2025].
Proof. reflexivity. Qed.

(** Beyond 2^53 an addition of 1 is absorbed by the rounding. *)
Example range_stalls_above_2_53 :
  take 3 (range [num (Fin (2 ^ 53)); num (Fin (2 ^ 53 + 2)); num (Fin 1)])
  = [Fin (2 ^ 53); Fin (2 ^ 53); Fin (2 ^ 53)].
Proof. reflexivity. Qed.








(** C10: when [start], [stop] or the step of a call is [NaN], the first
    [next()] already reports the end: no value is produced and nothing is
    thrown. *)
Theorem range_NaN_is_empty (args : list value) (start stop step : number) :
  arguments args = Some (start, stop, step) ->
  (isNaN start || isNaN stop || isNaN step)%bool = true ->
  next (range args) = (Done, Completed) /\
  (forall n, take n (range args) = []) /\
  (forall fuel, (0 < fuel)%nat -> spread (range args) fuel = Returns []).
Proof.
  intros Hargs Hnan.
  assert (Hnext : next (range args) = (Done, Completed)).
  { simpl. rewrite Hargs. unfold guarded. now rewrite Hnan. }
  split; [exact Hnext|]. split.
  - intros n. apply take_done. now rewrite Hnext.
  - intros fuel Hf. apply spread_done; [now rewrite Hnext | exact Hf].
Qed.

(** C10, witness: [range(NaN, 5)]. *)
Lemma range_NaN_is_empty_witness :
  spread (range [num NaN; num (Fin 5)]) 1 = Returns [].
Proof.
  apply (proj2 (proj2 (range_NaN_is_empty [num NaN; num (Fin 5)]
                         NaN (Fin 5) (Fin (-1)) eq_refl eq_refl))).
  apply Nat.lt_0_succ.
Defined.

End RangeClaims.

(** ** The weekday expander *)

Module WeekdayClaims.
Local Open Scope string_scope.

Ltac is_listed := vm_compute; repeat (first [left; reflexivity | right]).

Lemma parseRangedWeekDaySpec_days (anc ca cb : list Tree) (tx a b : string)
      (fuel : nat) :
  parseRangedWeekDaySpec
    (mkToken (Node "RangedWeekDaySpec" tx
                [Node "DayOfTheWeek" a ca; Node "DayOfTheWeek" b cb]) anc) fuel
  = if lt (Fin (day_index b)) (Fin (day_index a))
    then Throws (Error "Systemd starts weeks on Monday")
    else spread (range [num (Fin (day_index a));
                        num (add (Fin (day_index b)) (Fin 1))]) fuel.
Proof.
  set (tree := Node "RangedWeekDaySpec" tx
                 [Node "DayOfTheWeek" a ca; Node "DayOfTheWeek" b cb]).
  unfold parseRangedWeekDaySpec, bind.
  assert (E1 : assertTokenType (mkToken tree anc) "RangedWeekDaySpec" fuel
               = Returns tt) by reflexivity.
  assert (E2 : assertChildrenLengthEQ (mkToken tree anc) 2 fuel = Returns tt)
    by reflexivity.
  assert (E3 : item (children (mkToken tree anc)) 0 fuel
               = Returns (mkToken (Node "DayOfTheWeek" a ca) (tree :: anc)))
    by reflexivity.
  assert (E4 : item (children (mkToken tree anc)) 1 fuel
               = Returns (mkToken (Node "DayOfTheWeek" b cb) (tree :: anc)))
    by reflexivity.
  rewrite E1, E2, E3, E4.
  destruct (parseDayOfTheWeek_first (tree :: anc) ca a fuel) as [ra ->].
  destruct (parseDayOfTheWeek_first (tree :: anc) cb b fuel) as [rb ->].
  cbn [first_value Number].
  now destruct (lt (Fin (day_index b)) (Fin (day_index a))).
Qed.

(** C5: on a weekday spec whose day nodes hold day names (in full or
    three-letter form, in any case) [expandWeekDaySpec] ends, and what it
    returns are indexes from 0 to 6 only, in strictly ascending order, so
    that making the result unique and sorting it again changes nothing;
    expanding the same tree again gives the same list; Monday is 0 and
    Sunday is 6; and the parse of ["Sat,Thu,Mon..Wed,Sat..Sun"] expands to
    [[0,1,2,3,5,6]]. *)
Theorem expandWeekDaySpec_indexes :
  (forall tokens fuel,
      days_well_formed tokens -> (8 <= fuel)%nat ->
      expandWeekDaySpec tokens fuel <> Unfinished) /\
  (forall tokens fuel l,
      days_well_formed tokens ->
      expandWeekDaySpec tokens fuel = Returns l ->
      Forall weekday_index l /\ ascending l /\ sort (number_Set_of l) = l) /\
  (forall tokens fuel fuel' l l',
      expandWeekDaySpec tokens fuel = Returns l ->
      expandWeekDaySpec tokens fuel' = Returns l' -> l = l') /\
  map (fun name => parseDayOfTheWeek (root (Ast.day name)) 0%nat)
      ["Monday"; "tuesday"; "WEDNESDAY"; "Thursday"; "friDAY"; "Saturday"; "sunday";
       "mon"; "Tue"; "WED"; "thu"; "fRi"; "SAT"; "Sun"]
  = map (fun i => Returns [Fin i]) [0; 1; 2; 3; 4; 5; 6; 0; 1; 2; 3; 4; 5; 6]%Z /\
  (forall fuel, (4 <= fuel)%nat ->
      expandWeekDaySpec (Ast.firstChild Ast.weekdays) fuel
      = Returns [Fin 0; Fin 1; Fin 2; Fin 3; Fin 5; Fin 6]).
Proof.
  split; [|split; [|split; [|split; [reflexivity|]]]].
  - intros tokens fuel. apply expandWeekDaySpec_finishes.
  - intros tokens fuel l Hwf H.
    destruct (expandWeekDaySpec_set tokens fuel l Hwf H) as [days [-> [Hall Hnd]]].
    assert (Hall' : Forall weekday_index (sort days)).
    { rewrite Forall_forall in *. intros v Hv. apply Hall.
      now apply (Permutation_in _ (sort_perm days)). }
    assert (Hnd' : NoDup (sort days)).
    { apply (Permutation_NoDup (Permutation_sym (sort_perm days)) Hnd). }
    split; [exact Hall'|]. split.
    + apply sorted_weekdays_ascending; auto using sort_sorted.
    + unfold number_Set_of. rewrite Set_of_NoDup_id by exact Hnd'.
      apply sort_sorted_id, sort_sorted.
  - intros tokens fuel fuel' l l' H H'.
    pose proof (monotone_expandWeekDaySpec tokens) as Hm.
    destruct (Nat.le_ge_cases fuel fuel') as [Hle|Hle].
    + rewrite (monotone_returns _ _ _ _ Hm H Hle) in H'. congruence.
    + rewrite (monotone_returns _ _ _ _ Hm H' Hle) in H. congruence.
  - intros fuel Hf.
    apply (monotone_returns _ 4 fuel); [apply monotone_expandWeekDaySpec | | exact Hf].
    reflexivity.
Qed.

(** C5, witness: the parse of ["Sat,Thu,Mon..Wed,Sat..Sun"]. *)
Lemma expandWeekDaySpec_indexes_witness :
  Forall weekday_index [Fin 0; Fin 1; Fin 2; Fin 3; Fin 5; Fin 6] /\
  ascending [Fin 0; Fin 1; Fin 2; Fin 3; Fin 5; Fin 6] /\
  sort (number_Set_of [Fin 0; Fin 1; Fin 2; Fin 3; Fin 5; Fin 6])
  = [Fin 0; Fin 1; Fin 2; Fin 3; Fin 5; Fin 6].
Proof.
  apply (proj1 (proj2 expandWeekDaySpec_indexes) (Ast.firstChild Ast.weekdays) 4%nat).
  - assert (E : extractTextForType (Ast.firstChild Ast.weekdays) "DayOfTheWeek"
               = ["Sat"; "Thu"; "Mon"; "Wed"; "Sat"; "Sun"]) by reflexivity.
    unfold days_well_formed. rewrite E.
    repeat (apply Forall_cons; [is_listed|]). apply Forall_nil.
  - reflexivity.
Defined.



End WeekdayClaims.

(** ** The special expressions *)

Module SpecialExpressionClaims.
Local Open Scope string_scope.

(** C7: on a [SpecialExpressions] node (a leaf, as the grammar builds it)
    whose text is one of the nine keywords, [expandSpecialExpression]
    returns the text the table gives for that keyword, which is never
    empty; hourly, daily and weekly give ["*-*-* *:00:00"],
    ["*-*-* 00:00:00"] and ["Mon *-*-* 00:00:00"]; on a node of any other
    type, such as the date spec of ["*-*-*"], it throws. *)
Theorem expandSpecialExpression_table :
  (forall tokens keyword expansion fuel,
      type tokens = "SpecialExpressions" -> children tokens = [] ->
      text tokens = keyword ->
      In (keyword, expansion) SPECIAL_EXPRESSION_EXPANSION_MAP ->
      expandSpecialExpression tokens fuel = Returns (Some expansion) /\
      expansion <> "") /\
  map fst SPECIAL_EXPRESSION_EXPANSION_MAP
  = ["minutely"; "hourly"; "daily"; "weekly"; "monthly"; "quarterly";
     "semiannually"; "yearly"; "annually"] /\
  (forall fuel,
      map (fun keyword =>
             expandSpecialExpression (root (Node "SpecialExpressions" keyword [])) fuel)
          ["hourly"; "daily"; "weekly"]
      = [Returns (Some "*-*-* *:00:00"); Returns (Some "*-*-* 00:00:00");
         Returns (Some "Mon *-*-* 00:00:00")]) /\
  (forall tokens fuel,
      type tokens <> "SpecialExpressions" ->
      expandSpecialExpression tokens fuel
      = Throws (UnexpectedTokenTypeError "SpecialExpressions" (type tokens))) /\
  (forall fuel,
      expandSpecialExpression (Ast.firstChild Ast.any_date) fuel
      = Throws (UnexpectedTokenTypeError "SpecialExpressions" "DateSpec")).
Proof.
  split; [|split; [reflexivity|split; [reflexivity|split]]].
  - intros tokens keyword expansion fuel Hty Hcs Htx Hin.
    unfold expandSpecialExpression, bind, assertTokenType, assertChildrenLengthLEQ.
    rewrite Hty, Hcs, Htx. simpl in Hin |- *.
    repeat (destruct Hin as [Hin|Hin];
            [injection Hin as <- <-; split; [reflexivity|discriminate]|]).
    contradiction.
  - intros tokens fuel Hty.
    unfold expandSpecialExpression, bind, assertTokenType.
    now destruct (String.eqb_spec (type tokens) "SpecialExpressions").
  - reflexivity.
Qed.

(** C7, witness: the special expression of ["hourly America/Chicago"]. *)
Lemma expandSpecialExpression_table_witness :
  expandSpecialExpression (Ast.firstChild Ast.hourly) 0%nat
  = Returns (Some "*-*-* *:00:00") /\ "*-*-* *:00:00" <> "".
Proof.
  apply (proj1 expandSpecialExpression_table (Ast.firstChild Ast.hourly) "hourly");
    try reflexivity.
  simpl. tauto.
Defined.

End SpecialExpressionClaims.

(** ** The time-unit and date-spec expanders *)

Module DateClaims.
Local Open Scope string_scope.

(** C2: an entry [a..b] of a field with maximum [max] is expanded as
    [range(a, min(b, max), 1)] and an entry [a..b/c] as
    [range(a, min(b, max), c)]; the sequencer never yields the [stop] it is
    given, so the clamped end is never among the values.  The months of
    ["2003-02..04-05"] expand to [[2,3]] (4 is missing), those of
    ["2003-1..7/3-05"] to [[1,4]] (7 is missing) and those of
    ["2003-10..20-05"], whose end is clamped to 12, to [[10,11]] (12 is
    missing). *)
Theorem ranged_time_unit_stops_before_its_end :
  (forall anc scs fcs sty stx ty ftx a b maxEndValue fuel,
      Map_get tokenTypeToMaximumValue ty = Some maxEndValue ->
      let entry := mkToken (Ast.ranged a b)
                     (Node sty stx scs :: Node ty ftx fcs :: anc) in
      let end_ := min (Number (str b)) maxEndValue in
      expandTimeUnitSpecEntry entry fuel
      = spread (range [num (Number (str a)); num end_; num (Fin 1)]) fuel /\
      forall l, expandTimeUnitSpecEntry entry fuel = Returns l -> ~ In end_ l) /\
  (forall anc scs fcs sty stx ty ftx a b c maxEndValue fuel,
      Map_get tokenTypeToMaximumValue ty = Some maxEndValue ->
      let entry := mkToken (Ast.rangedStep a b c)
                     (Node sty stx scs :: Node ty ftx fcs :: anc) in
      let end_ := min (Number (str b)) maxEndValue in
      expandTimeUnitSpecEntry entry fuel
      = spread (range [num (Number (str a)); num end_; num (Number (str c))]) fuel /\
      forall l, expandTimeUnitSpecEntry entry fuel = Returns l -> ~ In end_ l) /\
  (forall fuel, (3 <= fuel)%nat ->
      expandDateSpec (Ast.firstChild Ast.feb_to_apr) fuel
      = Returns (mkDateIterator no_years [Fin 2; Fin 3] [Fin 5])) /\
  (forall fuel, (3 <= fuel)%nat ->
      expandDateSpec (Ast.firstChild Ast.every_third_month) fuel
      = Returns (mkDateIterator no_years [Fin 1; Fin 4] [Fin 5])) /\
  (forall fuel, (3 <= fuel)%nat ->
      expandDateSpec (Ast.firstChild Ast.oct_onwards) fuel
      = Returns (mkDateIterator no_years [Fin 10; Fin 11] [Fin 5])).
Proof.
  assert (Hstop : forall start stop step fuel l,
             spread (range [num start; num stop; num step]) fuel = Returns l ->
             ~ In stop l).
  { intros start stop step fuel l Hrun Hin.
    apply (range3_excludes_stop start stop step (List.length l)).
    rewrite (take_of_spread _ _ _ Hrun). now rewrite firstn_all. }
  split; [|split; [|repeat split]].
  - intros anc scs fcs sty stx ty ftx a b maxEndValue fuel Hmax entry end_.
    unfold entry, end_. rewrite (ranged_entry _ _ _ _ _ _ _ _ _ _ _ Hmax).
    split; [reflexivity | intros l; apply Hstop].
  - intros anc scs fcs sty stx ty ftx a b c maxEndValue fuel Hmax entry end_.
    unfold entry, end_. rewrite (ranged_step_entry _ _ _ _ _ _ _ _ _ _ _ _ Hmax).
    split; [reflexivity | intros l; apply Hstop].
  - intros fuel Hf.
    apply (monotone_returns _ 3 fuel); [apply monotone_expandDateSpec | | exact Hf].
    reflexivity.
  - intros fuel Hf.
    apply (monotone_returns _ 3 fuel); [apply monotone_expandDateSpec | | exact Hf].
    reflexivity.
  - intros fuel Hf.
    apply (monotone_returns _ 3 fuel); [apply monotone_expandDateSpec | | exact Hf].
    reflexivity.
Qed.

(** C2, witness: the entry [02..04] of a month field. *)
Lemma ranged_time_unit_stops_before_its_end_witness :
  expandTimeUnitSpecEntry
    (mkToken (Ast.ranged "02" "04")
       [Node "TimeUnitSpec" "02..04" [Ast.ranged "02" "04"];
        Ast.field "Month" "02..04" [Ast.ranged "02" "04"]]) 3%nat
  = Returns [Fin 2; Fin 3] /\
  ~ In (Fin 4) [Fin 2; Fin 3].
Proof.
  destruct (proj1 ranged_time_unit_stops_before_its_end
              [] [Ast.ranged "02" "04"]
              [Node "TimeUnitSpec" "02..04" [Ast.ranged "02" "04"]]
              "TimeUnitSpec" "02..04" "Month" "02..04" "02" "04" (Fin 12) 3%nat
              eq_refl) as [Heq Hnot].
  split; [reflexivity | apply Hnot; reflexivity].
Defined.

(** C3: what [expandTimeUnitSpec] returns has no duplicates and is in the
    order of the default sort, which compares the values as text.  The
    months of ["2003-2,10-05"] expand to [[10,2]], which is not in
    ascending numeric order. *)
Theorem time_units_are_sorted_as_text :
  (forall tokens fuel l,
      expandTimeUnitSpec tokens fuel = Returns l ->
      NoDup l /\ Sorted (fun a b => default_le a b = true) l) /\
  (forall fuel,
      expandDateSpec (Ast.firstChild Ast.feb_and_oct) fuel
      = Returns (mkDateIterator no_years [Fin 10; Fin 2] [Fin 5])) /\
  ~ ascending [Fin 10; Fin 2].
Proof.
  split; [apply expandTimeUnitSpec_sorted_set|]. split; [reflexivity|].
  intros H. inversion H as [|? ? _ Hhd]; subst.
  inversion Hhd as [|? ? Hlt]; subst. discriminate Hlt.
Qed.

(** C3, witness: the month field of ["2003-2,10-05"]. *)
Lemma time_units_are_sorted_as_text_witness :
  NoDup [Fin 10; Fin 2] /\
  Sorted (fun a b => default_le a b = true) [Fin 10; Fin 2].
Proof.
  apply (proj1 time_units_are_sorted_as_text
           (children (root (Ast.field "Month" "2,10" [Ast.unit "2"; Ast.unit "10"])))
           0%nat).
  reflexivity.
Defined.

(** C8: for the parse of ["2025-12-25"] the month set is [[12]] and the day
    set is [[25]], but the year sequence is empty: the year generator is
    started without arguments, so the sequencer sees [NaN] and yields
    nothing.  The same holds of the years of every date spec. *)
Theorem expandDateSpec_yields_no_year :
  (forall fuel,
      expandDateSpec (Ast.firstChild Ast.christmas) fuel
      = Returns (mkDateIterator no_years [Fin 12] [Fin 25])) /\
  (forall fuel, (0 < fuel)%nat -> spread no_years fuel = Returns []) /\
  (forall tokens fuel result,
      expandDateSpec tokens fuel = Returns result ->
      forall n, take n (years result) = []).
Proof.
  split; [reflexivity|]. split.
  - intros fuel Hf. now apply spread_done.
  - intros tokens fuel result H n. unfold expandDateSpec in H.
    repeat (apply bind_returns in H; destruct H as [? [_ H]]).
    injection H as <-. now apply take_done.
Qed.

(** C8, witness: the years of the parse of ["2025-12-25"]. *)
Lemma expandDateSpec_yields_no_year_witness :
  take 1 (years (mkDateIterator no_years [Fin 12] [Fin 25])) = [].
Proof.
  apply (proj2 (proj2 expandDateSpec_yields_no_year)
           (Ast.firstChild Ast.christmas) 0%nat).
  reflexivity.
Defined.

End DateClaims.

(** ** The next elapse *)

Module OccurrenceClaims.

(** C1: [getNext] on the parse of ["hourly America/Chicago"] returns the
    reading of the system clock, whatever the reference instant is; called
    at 2025-12-25T16:00:00-05:00 with that instant as reference it returns
    16:00, which is before 17:00. *)
Theorem getNext_returns_the_clock :
  (forall clock reference fuel,
      getNext clock (root Ast.hourly) reference fuel = Returns clock) /\
  (forall fuel,
      getNext reference_instant (root Ast.hourly) reference_instant fuel
      = Returns reference_instant) /\
  reference_instant < next_hour_instant.
Proof. repeat split. Qed.

End OccurrenceClaims.

(** ** More about the sequencer *)

Section RangeValues.

Lemma progression_cons (a c : Z) (n : nat) :
  progression a c (S n) = Fin a :: progression (a + c) c n.
Proof.
  unfold progression. simpl. f_equal; [f_equal; lia|].
  rewrite <- seq_shift, map_map. apply map_ext. intros k. f_equal. lia.
Qed.

Lemma steps_up_zero (a b c : Z) : 0 < c -> b <= a -> steps_up a b c = 0%nat.
Proof.
  intros Hc Hab. unfold steps_up.
  assert ((b - a + c - 1) / c <= 0); [|lia].
  assert ((b - a + c - 1) / c < 1); [|lia].
  apply Z.div_lt_upper_bound; lia.
Qed.

Lemma steps_up_succ (a b c : Z) :
  0 < c -> a < b -> steps_up a b c = S (steps_up (a + c) b c).
Proof.
  intros Hc Hab. unfold steps_up.
  replace (b - a + c - 1) with ((b - (a + c) + c - 1) + 1 * c) by lia.
  rewrite Z.div_add by lia.
  assert (0 <= (b - (a + c) + c - 1) / c) by (apply Z.div_pos; lia).
  rewrite Z2Nat.inj_add by lia. simpl. lia.
Qed.

Lemma steps_down_zero (a b c : Z) : c < 0 -> a <= b -> steps_down a b c = 0%nat.
Proof.
  intros Hc Hab. unfold steps_down.
  assert ((a - b - c - 1) / - c < 1); [|lia].
  apply Z.div_lt_upper_bound; lia.
Qed.

Lemma steps_down_succ (a b c : Z) :
  c < 0 -> b < a -> steps_down a b c = S (steps_down (a + c) b c).
Proof.
  intros Hc Hab. unfold steps_down.
  replace (a - b - c - 1) with ((a + c - b - c - 1) + 1 * - c) by lia.
  rewrite Z.div_add by lia.
  assert (0 <= (a + c - b - c - 1) / - c) by (apply Z.div_pos; lia).
  rewrite Z2Nat.inj_add by lia. simpl. lia.
Qed.

(** The first loop hands out [a], [a + c], ... while they are below [b]. *)
Lemma ascending_progression (n : nat) :
  forall (a b c : Z) (g : Generator),
    0 < c -> safe a -> safe b -> steps_up a b c = n ->
    next g = ascending_test (Fin a) (Fin b) (Fin c) ->
    forall fuel, (n < fuel)%nat -> spread g fuel = Returns (progression a c n).
Proof.
  induction n as [|n IH]; intros a b c g Hc Ha Hb Hn Hg fuel Hf.
  - destruct (Z.lt_ge_cases a b) as [Hab|Hab].
    { rewrite steps_up_succ in Hn by assumption. discriminate. }
    apply spread_done; [|lia].
    rewrite Hg, ascending_exit; auto; simpl; [apply Z.ltb_ge; lia | now apply Z.ltb_lt].
  - destruct (Z.lt_ge_cases a b) as [Hab|Hab].
    2:{ rewrite steps_up_zero in Hn by lia. discriminate. }
    rewrite steps_up_succ in Hn by assumption. injection Hn as Hn.
    rewrite progression_cons.
    destruct fuel as [|fuel]; [lia|].
    eapply spread_yield.
    { rewrite Hg. unfold ascending_test. simpl.
      now rewrite (proj2 (Z.ltb_lt a b) Hab). }
    unfold safe in Ha, Hb.
    destruct (Z.le_gt_cases (a + c) (2 ^ 53)) as [Hsum|Hsum].
    + apply (IH (a + c) b c); auto; [unfold safe; lia | | lia].
      simpl. now rewrite of_Z_safe by (unfold safe; lia).
    + rewrite steps_up_zero in Hn by lia. subst n.
      apply spread_done; [|lia]. unfold next.
      assert (Hpos : lt (Fin 0) (Fin c) = true) by (simpl; now apply Z.ltb_lt).
      destruct (of_Z_above (a + c)) as [Hinf|[z' [Hz' Hbig]]]; [lia| |];
        simpl add; [rewrite Hinf | rewrite Hz'];
        rewrite ascending_exit; auto.
      simpl. apply Z.ltb_ge. lia.
Qed.

(** The second loop hands out [a], [a + c], ... while they are above [b]. *)
Lemma descending_progression (n : nat) :
  forall (a b c : Z) (g : Generator),
    c < 0 -> safe a -> safe b -> steps_down a b c = n ->
    next g = descending_test (Fin a) (Fin b) (Fin c) ->
    forall fuel, (n < fuel)%nat -> spread g fuel = Returns (progression a c n).
Proof.
  induction n as [|n IH]; intros a b c g Hc Ha Hb Hn Hg fuel Hf.
  - destruct (Z.lt_ge_cases b a) as [Hab|Hab].
    { rewrite steps_down_succ in Hn by assumption. discriminate. }
    apply spread_done; [|lia].
    rewrite Hg, descending_exit; auto. unfold gt. simpl. apply Z.ltb_ge. lia.
  - destruct (Z.lt_ge_cases b a) as [Hab|Hab].
    2:{ rewrite steps_down_zero in Hn by lia. discriminate. }
    rewrite steps_down_succ in Hn by assumption. injection Hn as Hn.
    rewrite progression_cons.
    destruct fuel as [|fuel]; [lia|].
    eapply spread_yield.
    { rewrite Hg. unfold descending_test, gt. simpl.
      now rewrite (proj2 (Z.ltb_lt b a) Hab). }
    unfold safe in Ha, Hb.
    destruct (Z.le_gt_cases (- 2 ^ 53) (a + c)) as [Hsum|Hsum].
    + apply (IH (a + c) b c); auto; [unfold safe; lia | | lia].
      simpl. now rewrite of_Z_safe by (unfold safe; lia).
    + rewrite steps_down_zero in Hn by lia. subst n.
      apply spread_done; [|lia]. unfold next.
      destruct (of_Z_below (a + c)) as [Hinf|[z' [Hz' Hbig]]]; [lia| |];
        simpl add; [rewrite Hinf | rewrite Hz'];
        rewrite descending_exit; auto.
      unfold gt. simpl. apply Z.ltb_ge. lia.
Qed.

End RangeValues.

Section RangeForms.

Lemma range3_ascending (a b c : Z) (fuel : nat) :
  safe a -> safe b -> 0 < c -> (steps_up a b c < fuel)%nat ->
  spread (range [num (Fin a); num (Fin b); num (Fin c)]) fuel
  = Returns (progression a c (steps_up a b c)).
Proof.
  intros Ha Hb Hc Hf.
  destruct (Z.lt_ge_cases a b) as [Hab|Hab].
  - apply (ascending_progression _ a b c); auto.
    rewrite range3_next, guarded_fin. simpl isNaN. cbv iota.
    replace (a =? b) with false by (symmetry; apply Z.eqb_neq; lia).
    replace (falsy (Fin c)) with false by (destruct c; try reflexivity; lia).
    unfold first_block. simpl lt.
    rewrite (proj2 (Z.ltb_lt a b) Hab).
    now replace (c <? 0) with false by (symmetry; apply Z.ltb_ge; lia).
  - rewrite steps_up_zero by lia. apply spread_done; [|lia].
    rewrite range3_next, guarded_fin. simpl isNaN. cbv iota.
    destruct ((a =? b) || falsy (Fin c))%bool; [reflexivity|].
    unfold first_block, second_block, gt. simpl lt.
    replace (a <? b) with false by (symmetry; apply Z.ltb_ge; lia).
    destruct (b <? a); [|reflexivity].
    now rewrite (proj2 (Z.ltb_lt 0 c) Hc).
Qed.

Lemma range3_descending (a b c : Z) (fuel : nat) :
  safe a -> safe b -> c < 0 -> (steps_down a b c < fuel)%nat ->
  spread (range [num (Fin a); num (Fin b); num (Fin c)]) fuel
  = Returns (progression a c (steps_down a b c)).
Proof.
  intros Ha Hb Hc Hf.
  destruct (Z.lt_ge_cases b a) as [Hab|Hab].
  - apply (descending_progression _ a b c); auto.
    rewrite range3_next, guarded_fin. simpl isNaN. cbv iota.
    replace (a =? b) with false by (symmetry; apply Z.eqb_neq; lia).
    replace (falsy (Fin c)) with false by (destruct c; try reflexivity; lia).
    unfold first_block, second_block, gt. simpl lt.
    replace (a <? b) with false by (symmetry; apply Z.ltb_ge; lia).
    rewrite (proj2 (Z.ltb_lt b a) Hab).
    now replace (0 <? c) with false by (symmetry; apply Z.ltb_ge; lia).
  - rewrite steps_down_zero by lia. apply spread_done; [|lia].
    rewrite range3_next, guarded_fin. simpl isNaN. cbv iota.
    destruct ((a =? b) || falsy (Fin c))%bool; [reflexivity|].
    unfold first_block, second_block, gt. simpl lt.
    destruct (a <? b) eqn:Hlt.
    + now rewrite (proj2 (Z.ltb_lt c 0) Hc).
    + now replace (b <? a) with false by (symmetry; apply Z.ltb_ge; lia).
Qed.

Lemma steps_up_unit (a b : Z) : steps_up a b 1 = Z.to_nat (b - a).
Proof. unfold steps_up. rewrite Z.div_1_r. f_equal. lia. Qed.

Lemma steps_down_unit (a b : Z) : steps_down a b (-1) = Z.to_nat (a - b).
Proof. unfold steps_down. simpl Z.opp. rewrite Z.div_1_r. f_equal. lia. Qed.

(** Past its [switch] a generator cannot throw. *)
Lemma next_well_argued (g : Generator) :
  well_argued g ->
  (forall e, fst (next g) <> Raise e) /\ well_argued (snd (next g)).
Proof.
  assert (Ht : forall x y z, (forall e, fst (descending_test x y z) <> Raise e)
                             /\ well_argued (snd (descending_test x y z))).
  { intros x y z. unfold descending_test. destruct (gt x y); simpl; split; easy. }
  assert (Hs : forall x y z, (forall e, fst (second_block x y z) <> Raise e)
                             /\ well_argued (snd (second_block x y z))).
  { intros x y z. unfold second_block.
    destruct (gt x y); [destruct (gt z (Fin 0))|]; simpl; try (split; easy).
    apply Ht. }
  assert (Ha : forall x y z, (forall e, fst (ascending_test x y z) <> Raise e)
                             /\ well_argued (snd (ascending_test x y z))).
  { intros x y z. unfold ascending_test.
    destruct (lt x y); simpl; [split; easy | apply Hs]. }
  assert (Hg : forall x y z, (forall e, fst (guarded x y z) <> Raise e)
                             /\ well_argued (snd (guarded x y z))).
  { intros x y z. unfold guarded, first_block.
    destruct (isNaN x || isNaN y || isNaN z)%bool; simpl; [split; easy|].
    destruct (strict_eq x y || falsy z)%bool; simpl; [split; easy|].
    destruct (lt x y); [destruct (lt z (Fin 0))|]; simpl;
      [split; easy | apply Ha | apply Hs]. }
  destruct g as [args|x y z|x y z|]; simpl; intros Hw.
  - destruct args as [|a [|b [|c [|d args]]]]; simpl in Hw; try lia; apply Hg.
  - apply Ha.
  - apply Ht.
  - split; easy.
Qed.

Lemma spread_never_throws (fuel : nat) :
  forall (g : Generator) (e : JsError),
    well_argued g -> spread g fuel <> Throws e.
Proof.
  induction fuel as [|fuel IH]; intros g e Hw; simpl; [discriminate|].
  destruct (next_well_argued g Hw) as [Hr Hw'].
  destruct (next g) as [[v| |e'] g']; simpl in *.
  - specialize (IH g' e Hw').
    destruct (spread g' fuel); [discriminate | exact IH | discriminate].
  - discriminate.
  - now contradiction (Hr e').
Qed.

End RangeForms.

Module RangeExtras.

(** X1: with integer arguments of magnitude at most 2^53 for [start] and
    [stop], [range(start, stop, step)] with a positive integer step yields
    exactly [start], [start + step], ... below [stop], that is
    [ceil((stop - start) / step)] values (none when [stop <= start]); with a
    negative step it yields [start], [start + step], ... above [stop]. *)
Theorem range_three_arguments_values :
  (forall start stop step fuel,
      safe start -> safe stop -> 0 < step ->
      (steps_up start stop step < fuel)%nat ->
      spread (range [num (Fin start); num (Fin stop); num (Fin step)]) fuel
      = Returns (progression start step (steps_up start stop step))) /\
  (forall start stop step fuel,
      safe start -> safe stop -> step < 0 ->
      (steps_down start stop step < fuel)%nat ->
      spread (range [num (Fin start); num (Fin stop); num (Fin step)]) fuel
      = Returns (progression start step (steps_down start stop step))).
Proof.
  split; intros; [now apply range3_ascending | now apply range3_descending].
Qed.

(** X1, witness: [range(1, 12, 3)] and [range(10, 0, -4)]. *)
Lemma range_three_arguments_values_witness :
  spread (range [num (Fin 1); num (Fin 12); num (Fin 3)]) 5
  = Returns [Fin 1; Fin 4; Fin 7; Fin 10] /\
  spread (range [num (Fin 10); num (Fin 0); num (Fin (-4))]) 4
  = Returns [Fin 10; Fin 6; Fin 2].
Proof.
  split.
  - apply (proj1 range_three_arguments_values 1 12 3 5%nat);
      [unfold safe; vm_compute; discriminate
      | unfold safe; vm_compute; discriminate | lia | vm_compute; lia].
  - apply (proj2 range_three_arguments_values 10 0 (-4) 4%nat);
      [unfold safe; vm_compute; discriminate
      | unfold safe; vm_compute; discriminate | lia | vm_compute; lia].
Defined.

(** X2: for integers of magnitude at most 2^53, [range(stop)] yields
    [0, 1, ..., stop - 1] (nothing when [stop <= 0]); [range(start, stop)]
    yields [start, ..., stop - 1] when [start <= stop] and counts down,
    [start, start - 1, ..., stop + 1], when [stop <= start]. *)
Theorem range_short_forms_values :
  (forall stop fuel,
      safe stop -> (Z.to_nat stop < fuel)%nat ->
      spread (range [num (Fin stop)]) fuel
      = Returns (progression 0 1 (Z.to_nat stop))) /\
  (forall start stop fuel,
      safe start -> safe stop -> start <= stop ->
      (Z.to_nat (stop - start) < fuel)%nat ->
      spread (range [num (Fin start); num (Fin stop)]) fuel
      = Returns (progression start 1 (Z.to_nat (stop - start)))) /\
  (forall start stop fuel,
      safe start -> safe stop -> stop <= start ->
      (Z.to_nat (start - stop) < fuel)%nat ->
      spread (range [num (Fin start); num (Fin stop)]) fuel
      = Returns (progression start (-1) (Z.to_nat (start - stop)))).
Proof.
  split; [|split].
  - intros stop fuel Hb Hf.
    rewrite (spread_ext _ (range [num (Fin 0); num (Fin stop); num (Fin 1)]))
      by reflexivity.
    rewrite range3_ascending; rewrite ?steps_up_unit, ?Z.sub_0_r; auto; try lia.
    unfold safe. vm_compute. discriminate.
  - intros a b fuel Ha Hb Hab Hf.
    destruct (Z.eq_dec a b) as [->|Hne].
    + rewrite Z.sub_diag. apply spread_done; [|lia].
      change (next (range [num (Fin b); num (Fin b)]))
        with (guarded (Fin b) (Fin b)
                (if lt (Fin b) (Fin b) then Fin 1 else Fin (-1))).
      rewrite guarded_fin, Z.eqb_refl. now destruct (isNaN _).
    + rewrite (spread_ext _ (range [num (Fin a); num (Fin b); num (Fin 1)])).
      * rewrite range3_ascending; rewrite ?steps_up_unit; auto; lia.
      * simpl. now rewrite (proj2 (Z.ltb_lt a b)) by lia.
  - intros a b fuel Ha Hb Hab Hf.
    rewrite (spread_ext _ (range [num (Fin a); num (Fin b); num (Fin (-1))])).
    + rewrite range3_descending; rewrite ?steps_down_unit; auto; lia.
    + simpl. now rewrite (proj2 (Z.ltb_ge a b)) by lia.
Qed.

(** X2, witness: [range(3)], [range(2, 5)] and [range(5, 2)]. *)
Lemma range_short_forms_values_witness :
  spread (range [num (Fin 3)]) 4 = Returns [Fin 0; Fin 1; Fin 2] /\
  spread (range [num (Fin 2); num (Fin 5)]) 4 = Returns [Fin 2; Fin 3; Fin 4] /\
  spread (range [num (Fin 5); num (Fin 2)]) 4 = Returns [Fin 5; Fin 4; Fin 3].
Proof.
  split; [|split].
  - apply (proj1 range_short_forms_values 3 4%nat);
      [unfold safe; vm_compute; discriminate | vm_compute; lia].
  - apply (proj1 (proj2 range_short_forms_values) 2 5 4%nat);
      [unfold safe; vm_compute; discriminate
      | unfold safe; vm_compute; discriminate | lia | vm_compute; lia].
  - apply (proj2 (proj2 range_short_forms_values) 5 2 4%nat);
      [unfold safe; vm_compute; discriminate
      | unfold safe; vm_compute; discriminate | lia | vm_compute; lia].
Defined.

(** X3: a call of [range] with one, two or three arguments never throws,
    whatever the arguments are; with none or more than three, the first
    [next()] throws the error "Invalid arguments to range". *)
Theorem range_throws_only_on_argument_count :
  (forall args fuel e,
      (1 <= List.length args <= 3)%nat -> spread (range args) fuel <> Throws e) /\
  (forall args fuel,
      (List.length args = 0 \/ 3 < List.length args)%nat -> (0 < fuel)%nat ->
      spread (range args) fuel = Throws (Error "Invalid arguments to range")).
Proof.
  split.
  - intros args fuel e Hlen. now apply spread_never_throws.
  - intros args fuel Hlen Hf. destruct fuel as [|fuel]; [lia|].
    destruct args as [|a [|b [|c [|d args]]]]; simpl in Hlen; try lia; reflexivity.
Qed.

(** X3, witness: [range(1, 2, 3, 4)]. *)
Lemma range_throws_only_on_argument_count_witness :
  spread (range [num (Fin 1); num (Fin 2); num (Fin 3); num (Fin 4)]) 1
  = Throws (Error "Invalid arguments to range").
Proof.
  apply (proj2 range_throws_only_on_argument_count); simpl; lia.
Defined.

End RangeExtras.

(** ** More about the weekday expander *)

Section WeekdayEntries.
Local Open Scope string_scope.

Lemma toLowerCase_app (a b : string) :
  toLowerCase (a ++ b) = toLowerCase a ++ toLowerCase b.
Proof. induction a as [|c a IH]; simpl; [reflexivity | now rewrite IH]. Qed.

Lemma toLowerCase_length (a : string) :
  String.length (toLowerCase a) = String.length a.
Proof. induction a as [|c a IH]; simpl; [reflexivity | now rewrite IH]. Qed.

Lemma substring_prefix (a b : string) :
  substring 0 (String.length a) (a ++ b) = a.
Proof.
  induction a as [|c a IH]; simpl.
  - now destruct b.
  - now rewrite IH.
Qed.


Lemma parseDayOfTheWeek_leaf (anc : list Tree) (name : string) (fuel : nat) :
  parseDayOfTheWeek (mkToken (Node "DayOfTheWeek" name []) anc) fuel
  = Returns [Fin (day_index name)].
Proof. reflexivity. Qed.

Lemma entry_one_day (anc : list Tree) (name : string) (fuel : nat) :
  parseWeekDaySpecEntry (mkToken (Ast.dayEntry name) anc) fuel
  = Returns [Fin (day_index name)].
Proof. reflexivity. Qed.

Lemma entry_day_range (anc : list Tree) (a b : string) (fuel : nat) :
  parseWeekDaySpecEntry (mkToken (Ast.dayRangeEntry a b) anc) fuel
  = if lt (Fin (day_index b)) (Fin (day_index a))
    then Throws (Error "Systemd starts weeks on Monday")
    else spread (range [num (Fin (day_index a));
                        num (add (Fin (day_index b)) (Fin 1))]) fuel.
Proof.
  unfold parseWeekDaySpecEntry, bind, Ast.dayRangeEntry, Ast.day.
  cbn -[parseRangedWeekDaySpec lt spread add String.append day_index].
  unfold bind. rewrite WeekdayClaims.parseRangedWeekDaySpec_days.
  destruct (lt (Fin (day_index b)) (Fin (day_index a))); [reflexivity|].
  now destruct (spread _ fuel).
Qed.

Lemma entry_returns (anc : list Tree) (e : Ast.WeekdayEntry) (fuel : nat) :
  entry_well_formed e -> ~ wraps e -> (8 <= fuel)%nat ->
  parseWeekDaySpecEntry (mkToken (Ast.weekdayEntry e) anc) fuel
  = Returns (entry_days e).
Proof.
  destruct e as [name|a b]; simpl; intros Hwf Hnw Hf.
  - apply entry_one_day.
  - destruct Hwf as [Ha Hb]. apply day_index_range in Ha, Hb.
    rewrite entry_day_range. simpl lt.
    rewrite (proj2 (Z.ltb_ge _ _)) by lia.
    apply weekday_interval; auto; lia.
Qed.

Lemma entry_throws (anc : list Tree) (e : Ast.WeekdayEntry) (fuel : nat) :
  wraps e ->
  parseWeekDaySpecEntry (mkToken (Ast.weekdayEntry e) anc) fuel
  = Throws (Error "Systemd starts weeks on Monday").
Proof.
  destruct e as [name|a b]; simpl; intros Hw; [contradiction|].
  rewrite entry_day_range. simpl lt. now rewrite (proj2 (Z.ltb_lt _ _) Hw).
Qed.

Lemma entry_days_indexes (e : Ast.WeekdayEntry) :
  entry_well_formed e -> Forall weekday_index (entry_days e).
Proof.
  destruct e as [name|a b]; simpl.
  - intros H. repeat constructor. exists (day_index name).
    split; [reflexivity | now apply day_index_range].
  - intros [Ha Hb]. apply day_index_range in Ha, Hb.
    apply interval_values; lia.
Qed.

Lemma interval_In (a b i : Z) : In (Fin i) (interval a b) <-> a <= i <= b.
Proof.
  unfold interval. rewrite in_map_iff. split.
  - intros [k [Hk Hin]]. injection Hk as <-. apply in_seq in Hin. lia.
  - intros H. exists (Z.to_nat (i - a)). split; [f_equal; lia|].
    apply in_seq. lia.
Qed.

Lemma entry_days_covers (e : Ast.WeekdayEntry) (i : Z) :
  In (Fin i) (entry_days e) <-> covers e i.
Proof.
  destruct e as [name|a b]; simpl.
  - split; [intros [H|[]]; congruence | intros ->; now left].
  - apply interval_In.
Qed.

(** The set that [expandWeekDaySpec] builds from entries that do not wrap. *)
Lemma weekday_loop_returns (anc : list Tree) (fuel : nat) (es : list Ast.WeekdayEntry) :
  Forall entry_well_formed es -> Forall (fun e => ~ wraps e) es ->
  (8 <= fuel)%nat ->
  forall acc,
    for_of (map (fun c => mkToken c anc) (map Ast.weekdayEntry es))
      (fun days token =>
         entry <- parseWeekDaySpecEntry token ;;
         ret (fold_left number_Set_add entry days))
      acc fuel
    = Returns (fold_left (fun days e => fold_left number_Set_add (entry_days e) days)
                 es acc).
Proof.
  intros Hwf Hnw Hf. induction es as [|e es IH]; intros acc; [reflexivity|].
  inversion Hwf as [|? ? He Hes]; subst.
  inversion Hnw as [|? ? Hne Hnes]; subst.
  simpl map. simpl for_of. unfold bind at 1. unfold bind at 1.
  rewrite entry_returns by assumption. cbv beta iota. unfold ret at 1.
  now apply IH.
Qed.

(** The first entry that wraps makes the loop throw. *)
Lemma weekday_loop_throws (anc : list Tree) (fuel : nat) (es : list Ast.WeekdayEntry) :
  Forall entry_well_formed es -> Exists wraps es -> (8 <= fuel)%nat ->
  forall acc,
    for_of (map (fun c => mkToken c anc) (map Ast.weekdayEntry es))
      (fun days token =>
         entry <- parseWeekDaySpecEntry token ;;
         ret (fold_left number_Set_add entry days))
      acc fuel
    = Throws (Error "Systemd starts weeks on Monday").
Proof.
  intros Hwf Hex Hf. induction es as [|e es IH]; intros acc.
  - inversion Hex.
  - inversion Hwf as [|? ? He Hes]; subst.
    simpl map. simpl for_of. unfold bind at 1. unfold bind at 1.
    assert (Hdec : wraps e \/ ~ wraps e).
    { destruct e as [n|a b]; simpl; [now right|]. lia. }
    destruct Hdec as [Hw|Hnw]; [now rewrite entry_throws|].
    rewrite entry_returns by assumption. cbv beta iota. unfold ret at 1.
    apply IH; [exact Hes|]. inversion Hex; subst; [contradiction|assumption].
Qed.

Lemma weekday_set_In (es : list Ast.WeekdayEntry) (acc : list number) (v : number) :
  In v (fold_left (fun days e => fold_left number_Set_add (entry_days e) days) es acc)
  <-> In v acc \/ Exists (fun e => In v (entry_days e)) es.
Proof.
  revert acc. induction es as [|e es IH]; intros acc; simpl.
  - split; [now left | intros [H|H]; [exact H | inversion H]].
  - rewrite IH. unfold number_Set_add. rewrite fold_Set_add_In.
    rewrite Exists_cons. tauto.
Qed.

Lemma weekday_set_NoDup (es : list Ast.WeekdayEntry) (acc : list number) :
  NoDup acc ->
  NoDup (fold_left (fun days e => fold_left number_Set_add (entry_days e) days) es acc).
Proof.
  revert acc. induction es as [|e es IH]; intros acc Hnd; simpl; [exact Hnd|].
  apply IH. now apply fold_Set_add_NoDup.
Qed.

Lemma expandWeekDaySpec_entries (anc : list Tree) (tx : string)
      (es : list Ast.WeekdayEntry) (fuel : nat) :
  expandWeekDaySpec (mkToken (Ast.weekdaySpec tx es) anc) fuel
  = match for_of (map (fun c => mkToken c (Ast.weekdaySpec tx es :: anc))
                      (map Ast.weekdayEntry es))
            (fun days token =>
               entry <- parseWeekDaySpecEntry token ;;
               ret (fold_left number_Set_add entry days))
            [] fuel with
    | Returns days => Returns (sort days)
    | Throws e => Throws e
    | Unfinished => Unfinished
    end.
Proof. reflexivity. Qed.

End WeekdayEntries.

Module WeekdayExtras.
Local Open Scope string_scope.

Ltac day_name := vm_compute; repeat (first [left; reflexivity | right]).

Ltac day_names_listed :=
  repeat (apply Forall_cons; [first [split; day_name | day_name]|]);
  apply Forall_nil.

(** X4: a day is recognised by its first three letters alone, in any case:
    whatever follows them is ignored, so that ["Monkey"] is Monday and
    ["SUNxyz"] is Sunday. *)
Theorem day_is_read_from_three_letters
        (i : nat) (short prefix rest : string) (anc : list Tree) (fuel : nat) :
  nth_error SHORT_DAY_NAMES i = Some short ->
  toLowerCase prefix = short ->
  parseDayOfTheWeek (mkToken (Node "DayOfTheWeek" (prefix ++ rest) []) anc) fuel
  = Returns [Fin (Z.of_nat i)].
Proof.
  intros Hnth Hlow. rewrite parseDayOfTheWeek_leaf. unfold day_index.
  rewrite toLowerCase_app, Hlow.
  assert (Hlen : String.length short = 3%nat /\
                 indexOf SHORT_DAY_NAMES short = Z.of_nat i).
  { do 7 (destruct i as [|i]; [injection Hnth as <-; split; reflexivity|]).
    destruct i; discriminate Hnth. }
  destruct Hlen as [Hlen Hidx].
  rewrite <- Hlen at 1. now rewrite substring_prefix, Hidx.
Qed.

(** X4, witness: ["Monkey"]. *)
Lemma day_is_read_from_three_letters_witness :
  parseDayOfTheWeek (mkToken (Node "DayOfTheWeek" ("Mon" ++ "key") []) []) 0%nat
  = Returns [Fin 0].
Proof.
  apply (day_is_read_from_three_letters 0%nat "mon" "Mon" "key" [] 0%nat);
    reflexivity.
Defined.



(** X6: a weekday spec whose entries are day names and ranges that do not
    wrap expands to exactly the days its entries name: an index is in the
    result if and only if some entry is that day or a range holding it; the
    result is in strictly ascending order, whatever the order and the
    repetitions of the entries (an empty spec gives the empty list). *)
Theorem weekday_spec_names_exactly_its_days
        (anc : list Tree) (tx : string) (es : list Ast.WeekdayEntry) (fuel : nat) :
  Forall entry_well_formed es -> Forall (fun e => ~ wraps e) es ->
  (8 <= fuel)%nat ->
  exists l,
    expandWeekDaySpec (mkToken (Ast.weekdaySpec tx es) anc) fuel = Returns l /\
    ascending l /\ Forall weekday_index l /\
    forall i, In (Fin i) l <-> Exists (fun e => covers e i) es.
Proof.
  intros Hwf Hnw Hf.
  set (days := fold_left (fun days e => fold_left number_Set_add (entry_days e) days)
                 es []).
  exists (sort days).
  assert (Hrun : expandWeekDaySpec (mkToken (Ast.weekdaySpec tx es) anc) fuel
                 = Returns (sort days)).
  { rewrite expandWeekDaySpec_entries.
    now rewrite weekday_loop_returns by assumption. }
  assert (Hmem : forall v, In v (sort days)
                           <-> Exists (fun e => In v (entry_days e)) es).
  { intros v. split.
    - intros Hin. apply (Permutation_in _ (sort_perm days)) in Hin.
      apply weekday_set_In in Hin. now destruct Hin as [[]|Hin].
    - intros Hex. apply (Permutation_in _ (Permutation_sym (sort_perm days))).
      apply weekday_set_In. now right. }
  assert (Hall : Forall weekday_index (sort days)).
  { apply Forall_forall. intros v Hv. apply Hmem in Hv.
    apply Exists_exists in Hv. destruct Hv as [e [He Hv]].
    rewrite Forall_forall in Hwf.
    pose proof (entry_days_indexes e (Hwf e He)) as Hidx.
    rewrite Forall_forall in Hidx. now apply Hidx. }
  split; [exact Hrun|]. split; [|split; [exact Hall|]].
  - apply sorted_weekdays_ascending; [exact Hall | | apply sort_sorted].
    apply (Permutation_NoDup (Permutation_sym (sort_perm days))).
    apply weekday_set_NoDup. constructor.
  - intros i. rewrite Hmem. split; intros Hex; apply Exists_exists in Hex;
      destruct Hex as [e [He Hv]]; apply Exists_exists; exists e;
      (split; [exact He | now apply entry_days_covers]).
Qed.

(** X6, witness: ["sun,SUN,mon..wed"]. *)
Lemma weekday_spec_names_exactly_its_days_witness :
  exists l,
    expandWeekDaySpec
      (mkToken (Ast.weekdaySpec "sun,SUN,mon..wed"
                  [Ast.OneDay "sun"; Ast.OneDay "SUN"; Ast.DayRange "mon" "wed"]) [])
      8%nat = Returns l /\
    ascending l /\ Forall weekday_index l /\
    forall i, In (Fin i) l <->
              Exists (fun e => covers e i)
                [Ast.OneDay "sun"; Ast.OneDay "SUN"; Ast.DayRange "mon" "wed"].
Proof.
  apply weekday_spec_names_exactly_its_days.
  - day_names_listed.
  - repeat (apply Forall_cons; [simpl; try tauto; vm_compute; discriminate|]).
    apply Forall_nil.
  - apply Nat.le_refl.
Defined.

(** X7: a weekday spec of day names fails as a whole as soon as one of its
    ranges wraps (its last day comes before its first in the week that
    starts on Monday): the error "Systemd starts weeks on Monday" is thrown
    and the days of the other entries are not returned. *)
Theorem weekday_spec_with_wrapping_range_fails
        (anc : list Tree) (tx : string) (es : list Ast.WeekdayEntry) (fuel : nat) :
  Forall entry_well_formed es -> Exists wraps es -> (8 <= fuel)%nat ->
  expandWeekDaySpec (mkToken (Ast.weekdaySpec tx es) anc) fuel
  = Throws (Error "Systemd starts weeks on Monday").
Proof.
  intros Hwf Hex Hf. rewrite expandWeekDaySpec_entries.
  now rewrite weekday_loop_throws by assumption.
Qed.

(** X7, witness: ["mon..wed,sun..tue"]. *)
Lemma weekday_spec_with_wrapping_range_fails_witness :
  expandWeekDaySpec
    (mkToken (Ast.weekdaySpec "mon..wed,sun..tue"
                [Ast.DayRange "mon" "wed"; Ast.DayRange "sun" "tue"]) [])
    8%nat
  = Throws (Error "Systemd starts weeks on Monday").
Proof.
  apply weekday_spec_with_wrapping_range_fails.
  - day_names_listed.
  - apply Exists_cons_tl, Exists_cons_hd. vm_compute. reflexivity.
  - apply Nat.le_refl.
Defined.

End WeekdayExtras.

(** ** More about the time-unit expander *)

Section TimeUnitEntries.
Local Open Scope string_scope.

Lemma Map_get_missing {V} (m : list (string * V)) (key : string) :
  ~ In key (map fst m) -> Map_get m key = None.
Proof.
  unfold Map_get. induction m as [|[k v] m IH]; intros Hnot; simpl; [reflexivity|].
  destruct (String.eqb_spec k key) as [->|Hne].
  - exfalso. apply Hnot. now left.
  - apply IH. intros Hin. apply Hnot. now right.
Qed.

(** The configured maxima are small integers. *)
Lemma maximum_is_safe (ty : string) (m : Z) :
  Map_get tokenTypeToMaximumValue ty = Some (Fin m) -> 12 <= m <= 61.
Proof.
  unfold Map_get, tokenTypeToMaximumValue. cbn [find fst].
  do 5 (match goal with
        | |- context [String.eqb ?k ty] => destruct (String.eqb k ty)
        end; [cbn [option_map snd]; intros H; injection H as <-; lia|]).
  discriminate.
Qed.

Lemma safe_small (z : Z) : -61 <= z <= 61 -> safe z.
Proof.
  intros H. unfold safe.
  assert (61 < 2 ^ 53) by (vm_compute; reflexivity). lia.
Qed.


(** An entry [a/c] is the call [range(a, max, c)]. *)
Lemma repeated_entry (anc scs fcs : list Tree) (sty stx ty ftx a c : string)
      (maxEndValue : number) (fuel : nat) :
  Map_get tokenTypeToMaximumValue ty = Some maxEndValue ->
  expandTimeUnitSpecEntry
    (mkToken (Ast.repeated a c) (Node sty stx scs :: Node ty ftx fcs :: anc)) fuel
  = spread (range [num (Number (str a)); num maxEndValue; num (Number (str c))]) fuel.
Proof.
  intros Hmax. unfold expandTimeUnitSpecEntry, bind.
  cbn -[Number spread Map_get]. rewrite Hmax.
  cbn -[Number spread]. unfold bind.
  now destruct (spread _ fuel).
Qed.



(** A [TimeUnit] that holds no explicit value. *)
Lemma time_unit_without_value (anc gcs others : list Tree) (utx gty gtx : string)
      (fuel : nat) :
  gty <> "TimeUnitNoWildcard" ->
  expandTimeUnit
    (mkToken (Node "TimeUnit" utx (Node gty gtx gcs :: others)) anc) fuel
  = Throws (Error "TODO").
Proof.
  intros Hty. unfold expandTimeUnit, bind.
  assert (E : item (children (mkToken (Node "TimeUnit" utx
                                         (Node gty gtx gcs :: others)) anc))
                0 fuel
              = Returns (mkToken (Node gty gtx gcs)
                           (Node "TimeUnit" utx (Node gty gtx gcs :: others) :: anc)))
    by reflexivity.
  rewrite E.
  change (type (mkToken (Node gty gtx gcs)
                  (Node "TimeUnit" utx (Node gty gtx gcs :: others) :: anc)))
    with gty.
  now rewrite (proj2 (String.eqb_neq gty "TimeUnitNoWildcard") Hty).
Qed.

Lemma min_fin (y m : Z) : min (Fin y) (Fin m) = Fin (Z.min y m).
Proof.
  unfold min. simpl lt. destruct (Z.ltb_spec m y); f_equal; lia.
Qed.






(** Where the default order agrees with the numeric one on a class of
    integers, a sorted list of distinct members of the class ascends. *)
Lemma sorted_ascending_on (P : Z -> Prop) :
  (forall a b, P a -> P b -> default_le (Fin a) (Fin b) = (a <=? b)%Z) ->
  forall l,
    Forall (fun v => exists z, v = Fin z /\ P z) l -> NoDup l ->
    Sorted (fun a b => default_le a b = true) l -> ascending l.
Proof.
  intros Hord. induction l as [|x l IH]; intros Hall Hnd Hs; [constructor|].
  inversion Hall as [|? ? [a [-> Ha]] Hall']; subst.
  inversion Hnd as [|? ? Hnotin Hnd']; subst.
  inversion Hs as [|? ? Hs' Hhd]; subst.
  constructor; [now apply IH|].
  destruct l as [|y l]; constructor.
  inversion Hall' as [|? ? [b [-> Hb]] _]; subst.
  inversion Hhd as [|? ? Hle]; subst.
  rewrite Hord in Hle by assumption.
  apply Z.leb_le in Hle. simpl. apply Z.ltb_lt.
  assert (a <> b) by (intros ->; apply Hnotin; now left). lia.
Qed.

Lemma order_in_class (lo n : nat) (a b : Z) :
  forallb (fun i => forallb (fun j =>
     Bool.eqb (default_le (Fin (Z.of_nat i)) (Fin (Z.of_nat j)))
              (Z.of_nat i <=? Z.of_nat j)%Z) (seq lo n)) (seq lo n) = true ->
  Z.of_nat lo <= a < Z.of_nat (lo + n) -> Z.of_nat lo <= b < Z.of_nat (lo + n) ->
  default_le (Fin a) (Fin b) = (a <=? b)%Z.
Proof.
  intros Hall Ha Hb. rewrite forallb_forall in Hall.
  specialize (Hall (Z.to_nat a)). rewrite forallb_forall in Hall.
  assert (Hia : In (Z.to_nat a) (seq lo n)) by (apply in_seq; lia).
  assert (Hib : In (Z.to_nat b) (seq lo n)) by (apply in_seq; lia).
  specialize (Hall Hia (Z.to_nat b) Hib).
  rewrite !Z2Nat.id in Hall by lia. now apply Bool.eqb_prop.
Qed.

Lemma one_digit_order (a b : Z) :
  0 <= a <= 9 -> 0 <= b <= 9 -> default_le (Fin a) (Fin b) = (a <=? b)%Z.
Proof.
  intros Ha Hb. apply (order_in_class 0 10); [vm_compute; reflexivity | lia | lia].
Qed.

Lemma two_digit_order (a b : Z) :
  10 <= a <= 99 -> 10 <= b <= 99 -> default_le (Fin a) (Fin b) = (a <=? b)%Z.
Proof.
  intros Ha Hb. apply (order_in_class 10 90); [vm_compute; reflexivity | lia | lia].
Qed.

End TimeUnitEntries.

Module TimeUnitExtras.
Local Open Scope string_scope.



(** X9: the wildcard is not implemented.  An entry whose first child is a
    [TimeUnit] holding anything but an explicit value throws the error
    "TODO", in every field; so does the date spec ["*-*-*"]. *)
Theorem wildcard_is_not_implemented :
  (forall anc scs fcs sty stx ty ftx etx utx gty gtx gcs others more
          maxEndValue fuel,
      Map_get tokenTypeToMaximumValue ty = Some maxEndValue ->
      gty <> "TimeUnitNoWildcard" ->
      expandTimeUnitSpecEntry
        (mkToken (Node "TimeUnitSpecEntry" etx
                    (Node "TimeUnit" utx (Node gty gtx gcs :: others) :: more))
           (Node sty stx scs :: Node ty ftx fcs :: anc)) fuel
      = Throws (Error "TODO")) /\
  (forall fuel,
      expandDateSpec (Ast.firstChild Ast.any_date) fuel = Throws (Error "TODO")).
Proof.
  split; [|reflexivity].
  intros anc scs fcs sty stx ty ftx etx utx gty gtx gcs others more
         maxEndValue fuel Hmax Hty.
  unfold expandTimeUnitSpecEntry, bind.
  cbn -[Map_get expandTimeUnit]. rewrite Hmax.
  cbn -[expandTimeUnit]. unfold bind.
  now rewrite (time_unit_without_value _ _ _ _ _ _ _ Hty).
Qed.

(** X9, witness: the entry [*] of a month field. *)
Lemma wildcard_is_not_implemented_witness :
  expandTimeUnitSpecEntry
    (mkToken Ast.wildcard
       [Node "TimeUnitSpec" "*" [Ast.wildcard]; Ast.field "Month" "*" [Ast.wildcard]])
    0%nat
  = Throws (Error "TODO").
Proof.
  apply (proj1 wildcard_is_not_implemented [] [Ast.wildcard]
           [Node "TimeUnitSpec" "*" [Ast.wildcard]]
           "TimeUnitSpec" "*" "Month" "*" "*" "*" "WILDCARD" "*" [] [] []
           (Fin 12) 0%nat eq_refl).
  discriminate.
Defined.

(** X10: a field without a configured maximum cannot be expanded.  An entry
    below a node whose type is not in the table of maxima throws the
    [TypeError] "Unknown <type> not in [object Map]" before reading its
    children; [Year] is such a type, so the time-unit expander fails on the
    entries of a year.  An entry that has no grandparent throws a
    [TypeError] as well. *)
Theorem field_without_maximum_throws :
  (forall etx ecs p ty ftx fcs anc fuel,
      Map_get tokenTypeToMaximumValue ty = None ->
      expandTimeUnitSpecEntry
        (mkToken (Node "TimeUnitSpecEntry" etx ecs) (p :: Node ty ftx fcs :: anc))
        fuel
      = Throws (TypeError ("Unknown " ++ ty ++ " not in [object Map]"))) /\
  (forall tx etx ecs es anc fuel,
      expandTimeUnitSpec
        (children (mkToken (Ast.field "Year" tx
                              (Node "TimeUnitSpecEntry" etx ecs :: es)) anc)) fuel
      = Throws (TypeError "Unknown Year not in [object Map]")) /\
  (forall token fuel,
      type token = "TimeUnitSpecEntry" ->
      (List.length (ancestors token) < 2)%nat ->
      exists msg, expandTimeUnitSpecEntry token fuel = Throws (TypeError msg)).
Proof.
  split; [|split].
  - intros etx ecs p ty ftx fcs anc fuel Hmax.
    unfold expandTimeUnitSpecEntry, bind.
    cbn -[Map_get String.append]. now rewrite Hmax.
  - intros. reflexivity.
  - intros [tree anc] fuel Hty Hlen.
    unfold expandTimeUnitSpecEntry, bind, assertTokenType. rewrite Hty.
    cbn [String.eqb Ascii.eqb Bool.eqb]. cbv iota. unfold ret at 1.
    unfold grandparentType, parent. cbn [ancestors] in *.
    destruct anc as [|p [|g anc]]; cbn [List.length] in Hlen;
      [eexists; reflexivity | eexists; reflexivity | lia].
Qed.

(** X10, witness: an entry below a [Year] node. *)
Lemma field_without_maximum_throws_witness :
  expandTimeUnitSpecEntry
    (mkToken (Ast.unit "2025")
       [Node "TimeUnitSpec" "2025" [Ast.unit "2025"];
        Ast.field "Year" "2025" [Ast.unit "2025"]]) 0%nat
  = Throws (TypeError "Unknown Year not in [object Map]").
Proof.
  apply (proj1 field_without_maximum_throws "2025"
           [Node "TimeUnit" "2025" [Ast.literal "2025"]]
           (Node "TimeUnitSpec" "2025" [Ast.unit "2025"])
           "Year" "2025" [Node "TimeUnitSpec" "2025" [Ast.unit "2025"]] [] 0%nat).
  reflexivity.
Defined.

(** X11: in a field with maximum [m], an entry [a/c] whose texts denote an
    integer [x] of magnitude at most 2^53 and a positive integer step [s]
    expands to [x], [x + s], [x + 2s], ... below [m]: the maximum itself is
    never among the values. *)
Theorem stepped_open_form_values
        (anc scs fcs : list Tree) (sty stx ty ftx a c : string)
        (m x s : Z) (fuel : nat) :
  Map_get tokenTypeToMaximumValue ty = Some (Fin m) ->
  Number (str a) = Fin x -> Number (str c) = Fin s ->
  safe x -> 0 < s -> (steps_up x m s < fuel)%nat ->
  expandTimeUnitSpecEntry
    (mkToken (Ast.repeated a c) (Node sty stx scs :: Node ty ftx fcs :: anc)) fuel
  = Returns (progression x s (steps_up x m s)) /\
  ~ In (Fin m) (progression x s (steps_up x m s)).
Proof.
  intros Hmax Ha Hc Hx Hs Hf.
  assert (Hm : safe m) by (apply safe_small; apply maximum_is_safe in Hmax; lia).
  assert (Hrun : expandTimeUnitSpecEntry
                   (mkToken (Ast.repeated a c)
                      (Node sty stx scs :: Node ty ftx fcs :: anc)) fuel
                 = Returns (progression x s (steps_up x m s))).
  { rewrite (repeated_entry _ _ _ _ _ _ _ _ _ _ _ Hmax), Ha, Hc.
    now apply range3_ascending. }
  split; [exact Hrun|]. intros Hin.
  rewrite (repeated_entry _ _ _ _ _ _ _ _ _ _ _ Hmax), Ha, Hc in Hrun.
  apply (range3_excludes_stop (Fin x) (Fin m) (Fin s)
           (List.length (progression x s (steps_up x m s)))).
  rewrite (take_of_spread _ _ _ Hrun). now rewrite firstn_all.
Qed.

(** X11, witness: the hours [0/6]. *)
Lemma stepped_open_form_values_witness :
  expandTimeUnitSpecEntry
    (mkToken (Ast.repeated "0" "6")
       [Node "TimeUnitSpec" "0/6" [Ast.repeated "0" "6"];
        Ast.field "Hour" "0/6" [Ast.repeated "0" "6"]]) 5%nat
  = Returns [Fin 0; Fin 6; Fin 12; Fin 18] /\
  ~ In (Fin 24) [Fin 0; Fin 6; Fin 12; Fin 18].
Proof.
  apply (stepped_open_form_values [] [Ast.repeated "0" "6"]
           [Node "TimeUnitSpec" "0/6" [Ast.repeated "0" "6"]]
           "TimeUnitSpec" "0/6" "Hour" "0/6" "0" "6" 24 0 6 5%nat);
    try reflexivity.
  - unfold safe. vm_compute. discriminate.
  - vm_compute. lia.
Defined.

(** X12: in a field with maximum [m], an entry [a..b] whose texts denote
    integers [x] (of magnitude at most 2^53) and [y >= 0] expands to the
    integers from [x] up to but not including [min(y, m)]; an entry [a..b/c]
    with a positive integer step [s] expands to [x], [x + s], ... below
    [min(y, m)]. *)
Theorem ranged_forms_values
        (anc scs fcs : list Tree) (sty stx ty ftx a b : string) (m x y : Z) :
  Map_get tokenTypeToMaximumValue ty = Some (Fin m) ->
  Number (str a) = Fin x -> Number (str b) = Fin y ->
  safe x -> 0 <= y ->
  (forall fuel,
      (Z.to_nat (Z.min y m - x) < fuel)%nat ->
      expandTimeUnitSpecEntry
        (mkToken (Ast.ranged a b) (Node sty stx scs :: Node ty ftx fcs :: anc)) fuel
      = Returns (progression x 1 (Z.to_nat (Z.min y m - x)))) /\
  (forall c s fuel,
      Number (str c) = Fin s -> 0 < s ->
      (steps_up x (Z.min y m) s < fuel)%nat ->
      expandTimeUnitSpecEntry
        (mkToken (Ast.rangedStep a b c)
           (Node sty stx scs :: Node ty ftx fcs :: anc)) fuel
      = Returns (progression x s (steps_up x (Z.min y m) s))).
Proof.
  intros Hmax Ha Hb Hx Hy.
  assert (Hend : safe (Z.min y m)).
  { apply safe_small. apply maximum_is_safe in Hmax. lia. }
  split.
  - intros fuel Hf.
    rewrite (ranged_entry _ _ _ _ _ _ _ _ _ _ _ Hmax), Ha, Hb, min_fin.
    rewrite <- steps_up_unit in *. apply range3_ascending; auto; lia.
  - intros c s fuel Hc Hs Hf.
    rewrite (ranged_step_entry _ _ _ _ _ _ _ _ _ _ _ _ Hmax), Ha, Hb, Hc, min_fin.
    now apply range3_ascending.
Qed.

(** X12, witness: the seconds [58..90] and [50..90/5]. *)
Lemma ranged_forms_values_witness :
  expandTimeUnitSpecEntry
    (mkToken (Ast.ranged "58" "90")
       [Node "TimeUnitSpec" "58..90" [Ast.ranged "58" "90"];
        Ast.field "Second" "58..90" [Ast.ranged "58" "90"]]) 4%nat
  = Returns [Fin 58; Fin 59; Fin 60] /\
  expandTimeUnitSpecEntry
    (mkToken (Ast.rangedStep "58" "90" "2")
       [Node "TimeUnitSpec" "58..90" [Ast.ranged "58" "90"];
        Ast.field "Second" "58..90" [Ast.ranged "58" "90"]]) 3%nat
  = Returns [Fin 58; Fin 60].
Proof.
  destruct (ranged_forms_values [] [Ast.ranged "58" "90"]
              [Node "TimeUnitSpec" "58..90" [Ast.ranged "58" "90"]]
              "TimeUnitSpec" "58..90" "Second" "58..90" "58" "90" 61 58 90
              eq_refl eq_refl eq_refl
              ltac:(unfold safe; vm_compute; discriminate) ltac:(lia))
    as [Hone Hstep].
  split.
  - apply Hone. vm_compute. lia.
  - apply (Hstep "2" 2); [reflexivity | lia | vm_compute; lia].
Defined.





(** X15: when the values of a time-unit spec all have one digit (0 to 9), or
    all have two (10 to 99), the text order of the default sort is the
    numeric order, and the result is strictly ascending. *)
Theorem same_width_values_are_in_numeric_order
        (tokens : list IToken) (fuel : nat) (l : list number) :
  expandTimeUnitSpec tokens fuel = Returns l ->
  Forall (fun v => exists z, v = Fin z /\ 0 <= z <= 9) l \/
  Forall (fun v => exists z, v = Fin z /\ 10 <= z <= 99) l ->
  ascending l.
Proof.
  intros Hrun Hclass.
  destruct (expandTimeUnitSpec_sorted_set tokens fuel l Hrun) as [Hnd Hs].
  destruct Hclass as [H|H].
  - apply (sorted_ascending_on (fun z => 0 <= z <= 9)); auto.
    intros; now apply one_digit_order.
  - apply (sorted_ascending_on (fun z => 10 <= z <= 99)); auto.
    intros; now apply two_digit_order.
Qed.

(** X15, witness: the hours [12,14,13,12]. *)
Lemma same_width_values_are_in_numeric_order_witness :
  ascending [Fin 12; Fin 13; Fin 14].
Proof.
  apply (same_width_values_are_in_numeric_order
           (children (mkToken (Ast.field "Hour" "12,14,13,12"
                                 (map Ast.unit ["12"; "14"; "13"; "12"])) []))
           0%nat).
  - reflexivity.
  - right. repeat (apply Forall_cons; [eexists; split; [reflexivity|lia]|]).
    apply Forall_nil.
Defined.

End TimeUnitExtras.

(** ** More about sets and the default sort *)

Section SortUniqueness.







End SortUniqueness.

Section ListedValues.
Local Open Scope string_scope.


End ListedValues.

Module SortExtras.
Local Open Scope string_scope.



End SortExtras.

(** ** More about the date spec and the special expressions *)

Module DateExtras.
Local Open Scope string_scope.

(** X17: a date spec needs a [Year], a [Month] and a [Day] child.  When one
    of them is missing (as the year is in ["10-15"]) [expandDateSpec] throws
    a [TypeError] instead of treating the field as unconstrained; a date
    spec without any child is rejected with the error "at least 1"
    children. *)
Theorem date_spec_needs_its_three_fields (tokens : IToken) (fuel : nat) :
  type tokens = "DateSpec" ->
  (children tokens <> [] ->
   findChildrenByType tokens "Year" = [] \/
   findChildrenByType tokens "Month" = [] \/
   findChildrenByType tokens "Day" = [] ->
   exists msg, expandDateSpec tokens fuel = Throws (TypeError msg)) /\
  (children tokens = [] ->
   expandDateSpec tokens fuel = Throws (UnexpectedChildrenError "at least 1" 0)).
Proof.
  intros Hty. unfold expandDateSpec, bind, assertTokenType, assertChildrenLengthGEQ.
  rewrite Hty. cbn [String.eqb Ascii.eqb Bool.eqb]. cbv iota. unfold ret at 1.
  split.
  - intros Hne Hmiss.
    destruct (children tokens) as [|c cs] eqn:Hcs; [contradiction|].
    cbn [List.length Nat.ltb Nat.leb]. cbv iota. unfold ret at 1.
    unfold item.
    destruct (findChildrenByType tokens "Year") as [|y ys];
      [eexists; reflexivity|].
    destruct (findChildrenByType tokens "Month") as [|m ms];
      [eexists; reflexivity|].
    destruct (findChildrenByType tokens "Day") as [|d ds];
      [eexists; reflexivity|].
    destruct Hmiss as [H|[H|H]]; discriminate H.
  - intros ->. reflexivity.
Qed.

(** X17, witness: a date spec with a month and a day only. *)
Lemma date_spec_needs_its_three_fields_witness :
  exists msg,
    expandDateSpec
      (mkToken (Node "DateSpec" "10-15"
                  [Ast.field "Month" "10" [Ast.unit "10"];
                   Ast.field "Day" "15" [Ast.unit "15"]]) []) 0%nat
    = Throws (TypeError msg).
Proof.
  apply (proj1 (date_spec_needs_its_three_fields
                  (mkToken (Node "DateSpec" "10-15"
                              [Ast.field "Month" "10" [Ast.unit "10"];
                               Ast.field "Day" "15" [Ast.unit "15"]]) [])
                  0%nat eq_refl)).
  - discriminate.
  - left. reflexivity.
Defined.

(** X18: on a [SpecialExpressions] leaf whose text is not a key of the
    table, [expandSpecialExpression] does not throw: it returns [undefined];
    on a [SpecialExpressions] node that has children it throws the error "at
    most 0" children, whatever its text is. *)
Theorem special_expression_edge_cases (tokens : IToken) (fuel : nat) :
  type tokens = "SpecialExpressions" ->
  (children tokens = [] ->
   ~ In (text tokens) (map fst SPECIAL_EXPRESSION_EXPANSION_MAP) ->
   expandSpecialExpression tokens fuel = Returns None) /\
  (children tokens <> [] ->
   expandSpecialExpression tokens fuel
   = Throws (UnexpectedChildrenError "at most 0" (List.length (children tokens)))).
Proof.
  intros Hty.
  unfold expandSpecialExpression, bind, assertTokenType, assertChildrenLengthLEQ.
  rewrite Hty. cbn [String.eqb Ascii.eqb Bool.eqb]. cbv iota. unfold ret at 1.
  split.
  - intros Hcs Hkey. rewrite Hcs. cbn [List.length Nat.ltb Nat.leb]. cbv iota.
    unfold ret. now rewrite Map_get_missing.
  - intros Hne. destruct (children tokens) as [|c cs]; [contradiction|].
    reflexivity.
Qed.

(** X18, witness: the keyword ["fortnightly"]. *)
Lemma special_expression_edge_cases_witness :
  expandSpecialExpression (root (Node "SpecialExpressions" "fortnightly" [])) 0%nat
  = Returns None.
Proof.
  apply (proj1 (special_expression_edge_cases
                  (root (Node "SpecialExpressions" "fortnightly" [])) 0%nat eq_refl)).
  - reflexivity.
  - vm_compute. intuition discriminate.
Defined.

End DateExtras.

(** ** Malformed weekday entries and the text extraction *)

Section TreeInduction.

(** Induction over a tree and the list of its children. *)
Lemma Tree_ind_children (P : Tree -> Prop) :
  (forall ty tx cs, Forall P cs -> P (Node ty tx cs)) -> forall t, P t.
Proof.
  intros Hnode. fix IH 1. intros [ty tx cs]. apply Hnode.
  induction cs as [|c cs IHcs]; constructor; [apply IH | exact IHcs].
Qed.

Lemma flat_map_filter_map {A B} (f : A -> list A) (g : A -> B) (p : A -> bool)
      (h : A -> list B) (l : list A) :
  Forall (fun x => h x = map g (filter p (f x))) l ->
  flat_map h l = map g (filter p (flat_map f l)).
Proof.
  induction 1 as [|x l Hx Hl IH]; simpl; [reflexivity|].
  now rewrite filter_app, map_app, Hx, IH.
Qed.

End TreeInduction.

Module ShapeExtras.
Local Open Scope string_scope.

(** X19: malformed weekday entries are rejected with the shape they have.
    An entry whose first child is neither a range nor a day throws
    [UnexpectedTokenTypeError] naming the type received; a range that does
    not have exactly two children throws [UnexpectedChildrenError] with the
    number it has; an entry without children is rejected too. *)
Theorem malformed_weekday_entries_are_rejected :
  (forall anc etx cty ctx ccs more fuel,
      cty <> "RangedWeekDaySpec" -> cty <> "DayOfTheWeek" ->
      parseWeekDaySpecEntry
        (mkToken (Node "WeekDaySpecEntry" etx (Node cty ctx ccs :: more)) anc) fuel
      = Throws (UnexpectedTokenTypeError "RangedWeekDaySpec|DayOfTheWeek" cty)) /\
  (forall anc tx cs fuel,
      List.length cs <> 2%nat ->
      parseRangedWeekDaySpec (mkToken (Node "RangedWeekDaySpec" tx cs) anc) fuel
      = Throws (UnexpectedChildrenError "2" (List.length cs))) /\
  (forall anc etx fuel,
      parseWeekDaySpecEntry (mkToken (Node "WeekDaySpecEntry" etx []) anc) fuel
      = Throws (UnexpectedChildrenError "at least 1" 0)).
Proof.
  split; [|split].
  - intros anc etx cty ctx ccs more fuel H1 H2.
    unfold parseWeekDaySpecEntry, bind.
    assert (E1 : assertTokenType
                   (mkToken (Node "WeekDaySpecEntry" etx (Node cty ctx ccs :: more)) anc)
                   "WeekDaySpecEntry" fuel = Returns tt) by reflexivity.
    assert (E2 : assertChildrenLengthGEQ
                   (mkToken (Node "WeekDaySpecEntry" etx (Node cty ctx ccs :: more)) anc)
                   1 fuel = Returns tt) by reflexivity.
    rewrite E1, E2. cbn [children subtree map for_of]. unfold bind.
    change (type (mkToken (Node cty ctx ccs) _)) with cty.
    now rewrite (proj2 (String.eqb_neq _ _) H1), (proj2 (String.eqb_neq _ _) H2).
  - intros anc tx cs fuel Hlen.
    unfold parseRangedWeekDaySpec, bind.
    assert (E1 : assertTokenType (mkToken (Node "RangedWeekDaySpec" tx cs) anc)
                   "RangedWeekDaySpec" fuel = Returns tt) by reflexivity.
    rewrite E1. unfold assertChildrenLengthEQ, children. cbn [subtree].
    rewrite length_map.
    now rewrite (proj2 (Nat.eqb_neq _ _) Hlen).
  - reflexivity.
Qed.

(** X19, witness: an entry holding a [TimeUnit], and a range of three days. *)
Lemma malformed_weekday_entries_are_rejected_witness :
  parseWeekDaySpecEntry
    (mkToken (Node "WeekDaySpecEntry" "5" [Node "TimeUnit" "5" []]) []) 0%nat
  = Throws (UnexpectedTokenTypeError "RangedWeekDaySpec|DayOfTheWeek" "TimeUnit") /\
  parseRangedWeekDaySpec
    (mkToken (Node "RangedWeekDaySpec" "mon..tue..wed"
                [Ast.day "mon"; Ast.day "tue"; Ast.day "wed"]) []) 0%nat
  = Throws (UnexpectedChildrenError "2" 3).
Proof.
  split.
  - apply (proj1 malformed_weekday_entries_are_rejected); discriminate.
  - apply (proj1 (proj2 malformed_weekday_entries_are_rejected) []
             "mon..tue..wed" [Ast.day "mon"; Ast.day "tue"; Ast.day "wed"]).
    discriminate.
Defined.

(** X20: [extractTextForType] returns the texts of exactly the nodes of the
    given type, the token itself included, in document order (a node before
    its children, the children from left to right). *)
Theorem extractTextForType_is_preorder (tokens : IToken) (ty : string) :
  extractTextForType tokens ty
  = map node_text
      (filter (fun n => String.eqb (node_type n) ty) (preorder (subtree tokens))).
Proof.
  unfold extractTextForType. generalize (subtree tokens). clear tokens.
  apply Tree_ind_children. intros ty' tx cs IH.
  cbn [extractText preorder filter node_type].
  rewrite (flat_map_filter_map preorder node_text
             (fun n => String.eqb (node_type n) ty) (extractText ty) cs IH).
  now destruct (String.eqb ty' ty).
Qed.

End ShapeExtras.
